(** * Gesture ingest and formation animator: a shallow embedding

    The development follows the TypeScript sources:
    - [types.ts]                       : [HandState], [HandData]
    - [services/geminiLiveService.ts]  : [tryParseJSON], [handleMessage],
                                         the frame-capture timer
    - [components/Tree.tsx]            : [FoliageSystem], [InstancedDecor],
                                         the foliage vertex shader
    - [components/Experience.tsx]      : [CameraController]

    JavaScript numbers are modelled by exact rationals extended with the two
    infinities and NaN.  Rounding to binary64 and the sign of zero are not
    modelled: every finite operation is the exact rational one. *)

From Stdlib Require Import QArith Qabs Qminmax Qpower Qround Lqa Lia.
From Stdlib Require Import ZArith NArith List String Ascii Bool.
From Stdlib Require Import Strings.Byte.
Import ListNotations.

Set Warnings "-register-all".

Open Scope Q_scope.

(* ===================================================================== *)
(** ** JavaScript numbers *)
(* ===================================================================== *)

Module JSNumber.

Inductive number : Type :=
| Fin (q : Q)
| PInf
| NInf
| NaN.

(** The infinity carrying the sign of a nonzero rational. *)
Definition inf_of_sign (q : Q) : number :=
  if Qle_bool 0 q then PInf else NInf.

Definition neg (a : number) : number :=
  match a with
  | Fin q => Fin (- q)
  | PInf => NInf
  | NInf => PInf
  | NaN => NaN
  end.

Definition add (a b : number) : number :=
  match a, b with
  | NaN, _ | _, NaN => NaN
  | Fin p, Fin q => Fin (p + q)
  | PInf, NInf | NInf, PInf => NaN
  | PInf, _ | _, PInf => PInf
  | NInf, _ | _, NInf => NInf
  end.

Definition sub (a b : number) : number := add a (neg b).

Definition mul (a b : number) : number :=
  match a, b with
  | NaN, _ | _, NaN => NaN
  | Fin p, Fin q => Fin (p * q)
  | Fin p, PInf | PInf, Fin p => if Qeq_bool p 0 then NaN else inf_of_sign p
  | Fin p, NInf | NInf, Fin p => if Qeq_bool p 0 then NaN else inf_of_sign (- p)
  | PInf, PInf | NInf, NInf => PInf
  | PInf, NInf | NInf, PInf => NInf
  end.

(** Division; a zero divisor is taken as positive zero. *)
Definition div (a b : number) : number :=
  match a, b with
  | NaN, _ | _, NaN => NaN
  | Fin p, Fin q =>
      if Qeq_bool q 0
      then (if Qeq_bool p 0 then NaN else inf_of_sign p)
      else Fin (p / q)
  | Fin _, PInf | Fin _, NInf => Fin 0
  | PInf, Fin q => inf_of_sign q
  | NInf, Fin q => neg (inf_of_sign q)
  | _, _ => NaN
  end.

(** [a < b]; false as soon as one side is NaN. *)
Definition lt (a b : number) : bool :=
  match a, b with
  | Fin p, Fin q => negb (Qle_bool q p)
  | Fin _, PInf | NInf, Fin _ | NInf, PInf => true
  | _, _ => false
  end.

(** [Math.min] and [Math.max] on two arguments. *)
Definition min (a b : number) : number :=
  match a, b with
  | NaN, _ | _, NaN => NaN
  | Fin p, Fin q => Fin (Qmin p q)
  | NInf, _ | _, NInf => NInf
  | PInf, c | c, PInf => c
  end.

Definition max (a b : number) : number :=
  match a, b with
  | NaN, _ | _, NaN => NaN
  | Fin p, Fin q => Fin (Qmax p q)
  | PInf, _ | _, PInf => PInf
  | NInf, c | c, NInf => c
  end.

(** [Math.pow a n] for a natural exponent [n] (the only call site passes
    [3.0]). *)
Definition pow (a : number) (n : N) : number :=
  if N.eqb n 0 then Fin 1 else
  match a with
  | Fin q => Fin (q ^ Z.of_N n)
  | PInf => PInf
  | NInf => if N.even n then PInf else NInf
  | NaN => NaN
  end.

(** Equality of the denoted values (rationals are compared by [Qeq]); NaN is
    identified with itself here, this is not the [===] of the language. *)
Definition same (a b : number) : Prop :=
  match a, b with
  | Fin p, Fin q => p == q
  | PInf, PInf | NInf, NInf | NaN, NaN => True
  | _, _ => False
  end.

End JSNumber.

Import JSNumber.

Declare Scope num_scope.
Delimit Scope num_scope with num.
Bind Scope num_scope with number.
Infix "+" := add : num_scope.
Infix "-" := sub : num_scope.
Infix "*" := mul : num_scope.
Infix "/" := div : num_scope.
Infix "=~" := same (at level 70, no associativity).

(* ===================================================================== *)
(** ** types.ts *)
(* ===================================================================== *)

Inductive HandState : Type := CLOSED | OPEN | UNKNOWN.

Definition HandState_eqb (a b : HandState) : bool :=
  match a, b with
  | CLOSED, CLOSED | OPEN, OPEN | UNKNOWN, UNKNOWN => true
  | _, _ => false
  end.

Record HandData : Type := mkHandData {
  state : HandState;
  x : number;
  y : number
}.

(* ===================================================================== *)
(** ** THREE.MathUtils and the vector helpers used by the components *)
(* ===================================================================== *)

Module MathUtils.

(** [lerp(x, y, t) = (1 - t) * x + t * y]. *)
Definition lerp (x y t : number) : number :=
  ((Fin 1 - t) * x + t * y)%num.

End MathUtils.

Record Vector3 : Type := mkVector3 {
  vec_x : number;
  vec_y : number;
  vec_z : number
}.

Record Euler : Type := mkEuler {
  euler_x : number;
  euler_y : number;
  euler_z : number
}.

(** [Vector3.lerpVectors(v1, v2, alpha)]: [v1 + (v2 - v1) * alpha] on each
    component. *)
Definition lerpVectors (v1 v2 : Vector3) (alpha : number) : Vector3 :=
  {| vec_x := (vec_x v1 + (vec_x v2 - vec_x v1) * alpha)%num;
     vec_y := (vec_y v1 + (vec_y v2 - vec_y v1) * alpha)%num;
     vec_z := (vec_z v1 + (vec_z v2 - vec_z v1) * alpha)%num |}.

(** [Vector3.setScalar(s)]. *)
Definition setScalar (s : number) : Vector3 :=
  {| vec_x := s; vec_y := s; vec_z := s |}.

(** One rendered frame as the render loop hands it to every [useFrame]
    callback: the signal captured by the component's closure, the clock's
    elapsed time and the time since the previous frame (both finite). *)
Record Frame : Type := mkFrame {
  handData : HandData;
  elapsedTime : Q;
  delta : Q
}.

(* ===================================================================== *)
(** ** components/Tree.tsx *)
(* ===================================================================== *)

Module Tree.

(** *** The foliage vertex shader (position blend, lines 34-39) *)

(** GLSL [pow(x, y)]: the result is undefined when [x < 0], and when
    [x = 0] and [y <= 0]; [None] stands for an undefined result. *)
Definition glsl_pow (b : number) (n : N) : option number :=
  match b with
  | Fin q =>
      if negb (Qle_bool 0 q) then None
      else if Qeq_bool q 0 && N.eqb n 0 then None
      else Some (pow b n)
  | PInf => Some (pow b n)
  | NInf | NaN => None
  end.

(** GLSL [mix(x, y, a) = x * (1 - a) + y * a], componentwise. *)
Definition mix (u v : Vector3) (a : number) : Vector3 :=
  {| vec_x := (vec_x u * (Fin 1 - a) + vec_x v * a)%num;
     vec_y := (vec_y u * (Fin 1 - a) + vec_y v * a)%num;
     vec_z := (vec_z u * (Fin 1 - a) + vec_z v * a)%num |}.

(** [pos] after [vec3 pos = mix(aChaosPos, aTargetPos, ease)]; the wind sway
    that the shader adds to [pos] afterwards is not part of the blend. *)
Definition foliageVertexShader_blend
    (uProgress : number) (aTargetPos aChaosPos : Vector3) : option Vector3 :=
  let t := uProgress in
  match glsl_pow (Fin 1 - t)%num 3 with
  | None => None
  | Some p =>
      let ease := (Fin 1 - p)%num in
      Some (mix aChaosPos aTargetPos ease)
  end.

(** *** FoliageSystem *)

Module FoliageSystem.

Record Uniforms : Type := mkUniforms {
  uProgress : number;
  uTime : number
}.

(** The refs of the component: [shaderRef.current] is [None] until the
    material is attached. *)
Record Refs : Type := mkRefs {
  shaderRef : option Uniforms;
  targetProgress : number;
  currentProgress : number
}.

(** [useRef(1)] twice, uniforms [{uProgress: 1, uTime: 0}]. *)
Definition initial : Refs :=
  {| shaderRef := Some {| uProgress := Fin 1; uTime := Fin 0 |};
     targetProgress := Fin 1;
     currentProgress := Fin 1 |}.

Definition useFrame (handData : HandData) (elapsedTime delta : number)
    (r : Refs) : Refs :=
  match shaderRef r with
  | None => r
  | Some _ =>
      let targetProgress' :=
        if HandState_eqb (state handData) OPEN then Fin 0 else Fin 1 in
      let speed :=
        if HandState_eqb (state handData) OPEN then Fin (5 # 2) else Fin 1 in
      let currentProgress' :=
        MathUtils.lerp (currentProgress r) targetProgress' (delta * speed)%num in
      {| shaderRef := Some {| uProgress := currentProgress';
                              uTime := elapsedTime |};
         targetProgress := targetProgress';
         currentProgress := currentProgress' |}
  end.

Definition frame (r : Refs) (f : Frame) : Refs :=
  useFrame (handData f) (Fin (elapsedTime f)) (Fin (delta f)) r.

Definition run (fs : list Frame) (r : Refs) : Refs := fold_left frame fs r.

End FoliageSystem.

(** *** InstancedDecor *)

Module InstancedDecor.

Record Item : Type := mkItem {
  target : Vector3;
  chaos : Vector3;
  scale : number;
  rotation : Euler;
  chaosRotation : Euler
}.

(** The part of a [THREE.Object3D] that [updateMatrix] composes into its
    matrix. *)
Record Object3D : Type := mkObject3D {
  obj_position : Vector3;
  obj_rotation : Euler;
  obj_scale : Vector3
}.

(** [new THREE.Object3D()]. *)
Definition new_Object3D : Object3D :=
  {| obj_position := mkVector3 (Fin 0) (Fin 0) (Fin 0);
     obj_rotation := mkEuler (Fin 0) (Fin 0) (Fin 0);
     obj_scale := mkVector3 (Fin 1) (Fin 1) (Fin 1) |}.

(** [meshRef.current] holds the instance matrices ([None] until the mesh is
    attached); [dummy] is the one scratch object shared by all items. *)
Record Refs : Type := mkRefs {
  meshRef : option (list Object3D);
  dummy : Object3D;
  currentProgress : number
}.

(** [setMatrixAt(i, m)]: writes slot [i]; a slot past the end is not
    written. *)
Fixpoint setMatrixAt (i : nat) (m : Object3D) (ms : list Object3D)
    : list Object3D :=
  match ms, i with
  | [], _ => []
  | _ :: rest, O => m :: rest
  | m0 :: rest, S j => m0 :: setMatrixAt j m rest
  end.

(** The body of [data.forEach((item, i) => ...)] for one item. *)
Definition forEach_body (elapsedTime t ease : number)
    (acc : Object3D * list Object3D) (ii : nat * Item)
    : Object3D * list Object3D :=
  let '(d, ms) := acc in
  let '(i, item) := ii in
  let position := lerpVectors (chaos item) (target item) ease in
  let rotation' :=
    if lt t (Fin (9 # 10)) then
      {| euler_x := (euler_x (chaosRotation item) + elapsedTime * (Fin 1 - t))%num;
         euler_y := (euler_y (chaosRotation item) + elapsedTime * (Fin 1 - t))%num;
         euler_z := euler_z (obj_rotation d) |}
    else rotation item in
  let scale' := setScalar (scale item * (Fin (1 # 2) + Fin (1 # 2) * t))%num in
  let d' := {| obj_position := position;
               obj_rotation := rotation';
               obj_scale := scale' |} in
  (d', setMatrixAt i d' ms).

Definition indexed {A : Type} (l : list A) : list (nat * A) :=
  combine (seq 0 (List.length l)) l.

Definition useFrame (weight : number) (data : list Item)
    (handData : HandData) (elapsedTime delta : number) (r : Refs) : Refs :=
  match meshRef r with
  | None => r
  | Some matrices =>
      let targetP :=
        if HandState_eqb (state handData) OPEN then Fin 0 else Fin 1 in
      let speed :=
        ((if HandState_eqb (state handData) OPEN
          then Fin 3 else Fin (3 # 2)) / weight)%num in
      let currentProgress' :=
        MathUtils.lerp (currentProgress r) targetP (delta * speed)%num in
      let t := currentProgress' in
      let ease := (Fin 1 - pow (Fin 1 - t) 3)%num in
      let '(dummy', matrices') :=
        fold_left (forEach_body elapsedTime t ease) (indexed data)
                  (dummy r, matrices) in
      {| meshRef := Some matrices';
         dummy := dummy';
         currentProgress := currentProgress' |}
  end.

(** [useRef(1)]; the mesh is created with [count] instances. *)
Definition initial (count : nat) : Refs :=
  {| meshRef := Some (repeat new_Object3D count);
     dummy := new_Object3D;
     currentProgress := Fin 1 |}.

Definition frame (weight : Q) (data : list Item) (r : Refs) (f : Frame)
    : Refs :=
  useFrame (Fin weight) data (handData f) (Fin (elapsedTime f))
           (Fin (delta f)) r.

Definition run (weight : Q) (data : list Item) (fs : list Frame) (r : Refs)
    : Refs :=
  fold_left (frame weight data) fs r.

End InstancedDecor.

(** The [weight] props that [Tree] passes to its four [InstancedDecor]s. *)
Definition weight_gifts : Q := 18 # 10.
Definition weight_gold_baubles : Q := 12 # 10.
Definition weight_ruby_baubles : Q := 12 # 10.
Definition weight_fairy_lights : Q := 8 # 10.

End Tree.

(* ===================================================================== *)
(** ** components/Experience.tsx *)
(* ===================================================================== *)

Module Experience.

(** [CameraController]'s [useFrame((state) => ...)]: the callback takes the
    render state only; [lookAt] turns the camera and leaves its position. *)
Definition targetX (handData : HandData) : number :=
  let baseX := Fin 0 in (baseX + x handData * Fin (-5))%num.

Definition targetY (handData : HandData) : number :=
  let baseY := Fin 4 in (baseY + y handData * Fin 3)%num.

Definition CameraController_useFrame (handData : HandData)
    (camera_position : Vector3) : Vector3 :=
  {| vec_x := MathUtils.lerp (vec_x camera_position) (targetX handData)
                             (Fin (5 # 100));
     vec_y := MathUtils.lerp (vec_y camera_position) (targetY handData)
                             (Fin (5 # 100));
     vec_z := vec_z camera_position |}.

(** [<PerspectiveCamera makeDefault position={[0, 4, 20]} />]. *)
Definition initial_camera_position : Vector3 :=
  mkVector3 (Fin 0) (Fin 4) (Fin 20).

Definition camera_frame (p : Vector3) (f : Frame) : Vector3 :=
  CameraController_useFrame (handData f) p.

Definition camera_run (fs : list Frame) (p : Vector3) : Vector3 :=
  fold_left camera_frame fs p.

End Experience.

(* ===================================================================== *)
(** ** Strings and JSON, as the service uses them *)
(* ===================================================================== *)

(** A JavaScript string is a sequence of UTF-16 code units. *)
Definition jsstring : Type := list N.

(** The code units of an ASCII literal. *)
Definition utf16 (s : string) : jsstring :=
  List.map N_of_ascii (list_ascii_of_string s).

(** Writing aid for literals that contain quotation marks: every apostrophe
    of the literal stands for a quotation mark (code unit 34). *)
Definition quoted (s : string) : jsstring :=
  List.map (fun c => if N.eqb c 39 then 34%N else c) (utf16 s).

Fixpoint jsstring_eqb (a b : jsstring) : bool :=
  match a, b with
  | [], [] => true
  | c :: a', d :: b' => N.eqb c d && jsstring_eqb a' b'
  | _, _ => false
  end.

Module JSON.

Local Open Scope N_scope.

Inductive value : Type :=
| JNull
| JBool (b : bool)
| JNumber (q : Q)
| JString (s : jsstring)
| JArray (elements : list value)
| JObject (members : list (jsstring * value)).

(** *** Numerals *)

Definition is_digit (c : N) : bool := (48 <=? c) && (c <=? 57).

Definition is_alpha (c : N) : bool :=
  ((65 <=? c) && (c <=? 90)) || ((97 <=? c) && (c <=? 122)).

Definition hex_val (c : N) : option N :=
  if is_digit c then Some (c - 48)
  else if (97 <=? c) && (c <=? 102) then Some (c - 87)
  else if (65 <=? c) && (c <=? 70) then Some (c - 55)
  else None.

(** The longest prefix of digits, and what follows it. *)
Fixpoint span_digits (l : jsstring) : jsstring * jsstring :=
  match l with
  | c :: rest =>
      if is_digit c
      then let '(ds, tl) := span_digits rest in (c :: ds, tl)
      else ([], l)
  | [] => ([], [])
  end.

Definition digits_value (ds : jsstring) : Z :=
  fold_left (fun acc c => (acc * 10 + Z.of_N (c - 48))%Z) ds 0%Z.

(** Value of [base]-digits, [None] when a character is not a digit of the
    base or when there is no digit. *)
Definition radix_value (base : N) (ds : jsstring) : option Z :=
  match ds with
  | [] => None
  | _ =>
      fold_left
        (fun acc c =>
           match acc, hex_val c with
           | Some a, Some d =>
               if d <? base then Some (a * Z.of_N base + Z.of_N d)%Z else None
           | _, _ => None
           end) ds (Some 0%Z)
  end.

(** [[eE] [+-]? digits] up to the end of the input; [Some 0] when the input
    is empty. *)
Definition exponent_part (l : jsstring) : option Z :=
  match l with
  | [] => Some 0%Z
  | c :: rest =>
      if (c =? 101) || (c =? 69) then
        let '(negative, rest') :=
          match rest with
          | s :: r => if s =? 45 then (true, r)
                      else if s =? 43 then (false, r) else (false, rest)
          | [] => (false, rest)
          end in
        let '(ds, tl) := span_digits rest' in
        match ds, tl with
        | _ :: _, [] =>
            Some (if negative then (- digits_value ds)%Z else digits_value ds)
        | _, _ => None
        end
      else None
  end.

Definition decimal (int frac : jsstring) (e : Z) : Q :=
  (inject_Z (digits_value (int ++ frac))
   * Qpower (inject_Z 10) (e - Z.of_nat (List.length frac)))%Q.

(** The JSON number grammar: an optional minus sign; an integer part that
    is either the digit 0 or starts with a digit 1-9; an optional fraction
    (a dot and at least one digit); an optional exponent. *)
Definition json_number (l : jsstring) : option Q :=
  let '(negative, l1) :=
    match l with
    | c :: r => if c =? 45 then (true, r) else (false, l)
    | [] => (false, l)
    end in
  let '(int, l2) := span_digits l1 in
  let int_ok :=
    match int with
    | [] => false
    | c :: _ :: _ => negb (c =? 48)
    | [_] => true
    end in
  let frac_rest :=
    match l2 with
    | c :: r =>
        if c =? 46 then
          let '(frac, l3) := span_digits r in
          match frac with [] => None | _ => Some (frac, l3) end
        else Some ([], l2)
    | [] => Some ([], l2)
    end in
  if int_ok then
    match frac_rest with
    | Some (frac, l3) =>
        match exponent_part l3 with
        | Some e =>
            let q := decimal int frac e in
            Some (if negative then (- q)%Q else q)
        | None => None
        end
    | None => None
    end
  else None.

(** *** Lexer *)

Inductive token : Type :=
| TLBrace | TRBrace | TLBracket | TRBracket | TColon | TComma
| TScalar (v : value).

(** The lexer reads one code unit at a time; accumulators are reversed. *)
Inductive lex_mode : Type :=
| Idle
| Bare (acc : jsstring)
| Str (acc : jsstring)
| Esc (acc : jsstring)
| Hex (acc : jsstring) (digits : jsstring).

Definition is_json_ws (c : N) : bool :=
  (c =? 9) || (c =? 10) || (c =? 13) || (c =? 32).

(** Characters of literals and numerals. *)
Definition is_bare (c : N) : bool :=
  is_digit c || is_alpha c || (c =? 43) || (c =? 45) || (c =? 46).

Definition scalar_of_bare (w : jsstring) : option value :=
  if jsstring_eqb w (utf16 "true") then Some (JBool true)
  else if jsstring_eqb w (utf16 "false") then Some (JBool false)
  else if jsstring_eqb w (utf16 "null") then Some JNull
  else option_map JNumber (json_number w).

Definition start_token (c : N) (out : list token)
    : option (lex_mode * list token) :=
  if is_json_ws c then Some (Idle, out)
  else if c =? 123 then Some (Idle, TLBrace :: out)
  else if c =? 125 then Some (Idle, TRBrace :: out)
  else if c =? 91 then Some (Idle, TLBracket :: out)
  else if c =? 93 then Some (Idle, TRBracket :: out)
  else if c =? 58 then Some (Idle, TColon :: out)
  else if c =? 44 then Some (Idle, TComma :: out)
  else if c =? 34 then Some (Str [], out)
  else if is_bare c then Some (Bare [c], out)
  else None.

(** The character an escape letter stands for ([\u] is handled apart). *)
Definition unescape (c : N) : option N :=
  if c =? 34 then Some 34
  else if c =? 92 then Some 92
  else if c =? 47 then Some 47
  else if c =? 98 then Some 8
  else if c =? 102 then Some 12
  else if c =? 110 then Some 10
  else if c =? 114 then Some 13
  else if c =? 116 then Some 9
  else None.

Definition hex4_value (ds : jsstring) : N :=
  fold_left (fun acc c => acc * 16 + match hex_val c with
                                     | Some d => d | None => 0 end) ds 0.

Fixpoint lex (mode : lex_mode) (out : list token) (input : jsstring)
    : option (list token) :=
  match input with
  | [] =>
      match mode with
      | Idle => Some (rev out)
      | Bare acc =>
          match scalar_of_bare (rev acc) with
          | Some v => Some (rev (TScalar v :: out))
          | None => None
          end
      | _ => None
      end
  | c :: rest =>
      match mode with
      | Idle =>
          match start_token c out with
          | Some (m, out') => lex m out' rest
          | None => None
          end
      | Bare acc =>
          if is_bare c then lex (Bare (c :: acc)) out rest
          else
            match scalar_of_bare (rev acc) with
            | Some v =>
                match start_token c (TScalar v :: out) with
                | Some (m, out') => lex m out' rest
                | None => None
                end
            | None => None
            end
      | Str acc =>
          if c =? 34 then lex Idle (TScalar (JString (rev acc)) :: out) rest
          else if c =? 92 then lex (Esc acc) out rest
          else if c <? 32 then None
          else lex (Str (c :: acc)) out rest
      | Esc acc =>
          match unescape c with
          | Some d => lex (Str (d :: acc)) out rest
          | None => if c =? 117 then lex (Hex acc []) out rest else None
          end
      | Hex acc ds =>
          match hex_val c with
          | None => None
          | Some _ =>
              let ds' := ds ++ [c] in
              if Nat.eqb (List.length ds') 4
              then lex (Str (hex4_value ds' :: acc)) out rest
              else lex (Hex acc ds') out rest
          end
      end
  end.

(** *** Parser: a stack of open containers *)

Inductive frame : Type :=
| FArray (elements : list value)
| FObject (members : list (jsstring * value))
| FMember (members : list (jsstring * value)) (key : jsstring).

Inductive expect : Type :=
| PValue
| PArrayStart
| PObjectStart
| PKey
| PColon
| PAfter
| PDone (v : value).

(** A complete value goes to the innermost open container. *)
Definition deliver (v : value) (stack : list frame)
    : option (expect * list frame) :=
  match stack with
  | [] => Some (PDone v, [])
  | FArray es :: st => Some (PAfter, FArray (es ++ [v]) :: st)
  | FMember ms k :: st => Some (PAfter, FObject (ms ++ [(k, v)]) :: st)
  | FObject _ :: _ => None
  end.

Definition step (e : expect) (stack : list frame) (t : token)
    : option (expect * list frame) :=
  match e, t with
  | (PValue | PArrayStart), TScalar v => deliver v stack
  | (PValue | PArrayStart), TLBrace => Some (PObjectStart, FObject [] :: stack)
  | (PValue | PArrayStart), TLBracket => Some (PArrayStart, FArray [] :: stack)
  | PArrayStart, TRBracket =>
      match stack with
      | FArray es :: st => deliver (JArray es) st
      | _ => None
      end
  | (PObjectStart | PKey), TScalar (JString k) =>
      match stack with
      | FObject ms :: st => Some (PColon, FMember ms k :: st)
      | _ => None
      end
  | PObjectStart, TRBrace =>
      match stack with
      | FObject ms :: st => deliver (JObject ms) st
      | _ => None
      end
  | PColon, TColon => Some (PValue, stack)
  | PAfter, TComma =>
      match stack with
      | FArray _ :: _ => Some (PValue, stack)
      | FObject _ :: _ => Some (PKey, stack)
      | _ => None
      end
  | PAfter, TRBracket =>
      match stack with
      | FArray es :: st => deliver (JArray es) st
      | _ => None
      end
  | PAfter, TRBrace =>
      match stack with
      | FObject ms :: st => deliver (JObject ms) st
      | _ => None
      end
  | _, _ => None
  end.

Fixpoint run (e : expect) (stack : list frame) (ts : list token)
    : option value :=
  match ts with
  | [] => match e, stack with PDone v, [] => Some v | _, _ => None end
  | t :: rest =>
      match step e stack t with
      | Some (e', stack') => run e' stack' rest
      | None => None
      end
  end.

(** [JSON.parse(text)]; [None] is a thrown [SyntaxError]. *)
Definition parse (text : jsstring) : option value :=
  match lex Idle [] text with
  | Some ts => run PValue [] ts
  | None => None
  end.

End JSON.

(* ===================================================================== *)
(** ** Conversions of the language that [tryParseJSON] relies on *)
(* ===================================================================== *)

Module Conversions.

Import JSON.
Local Open Scope N_scope.

(** White space and line terminators that [StringToNumber] strips. *)
Definition is_str_whitespace (c : N) : bool :=
  ((9 <=? c) && (c <=? 13)) || (c =? 32) || (c =? 160) || (c =? 5760)
  || ((8192 <=? c) && (c <=? 8202)) || (c =? 8232) || (c =? 8233)
  || (c =? 8239) || (c =? 8287) || (c =? 12288) || (c =? 65279).

Fixpoint drop_ws (l : jsstring) : jsstring :=
  match l with
  | c :: rest => if is_str_whitespace c then drop_ws rest else l
  | [] => []
  end.

Definition trim (l : jsstring) : jsstring := rev (drop_ws (rev (drop_ws l))).

(** [StrUnsignedDecimalLiteral]: [Infinity], or digits with an optional
    fraction and exponent, with a digit before or after the dot. *)
Definition str_unsigned_decimal (l : jsstring) : number :=
  if jsstring_eqb l (utf16 "Infinity") then PInf else
  let '(int, l2) := span_digits l in
  let '(frac, l3) :=
    match l2 with
    | c :: r => if c =? 46 then span_digits r else ([], l2)
    | [] => ([], l2)
    end in
  match int ++ frac with
  | [] => NaN
  | _ :: _ =>
      match exponent_part l3 with
      | Some e => Fin (decimal int frac e)
      | None => NaN
      end
  end.

(** [0x], [0o] and [0b] literals (no sign allowed). *)
Definition non_decimal (l : jsstring) : option (option Z) :=
  match l with
  | z :: p :: ds =>
      if z =? 48 then
        if (p =? 120) || (p =? 88) then Some (radix_value 16 ds)
        else if (p =? 111) || (p =? 79) then Some (radix_value 8 ds)
        else if (p =? 98) || (p =? 66) then Some (radix_value 2 ds)
        else None
      else None
  | _ => None
  end.

(** [StringToNumber]. *)
Definition StringToNumber (s : jsstring) : number :=
  match trim s with
  | [] => Fin 0
  | (c :: rest) as t =>
      match non_decimal t with
      | Some (Some z) => Fin (inject_Z z)
      | Some None => NaN
      | None =>
          if c =? 45 then neg (str_unsigned_decimal rest)
          else if c =? 43 then str_unsigned_decimal rest
          else str_unsigned_decimal t
      end
  end.

(** [ToNumber] of a property value; [None] is [undefined].  An array is
    converted through [join(",")]: the empty array gives the empty string,
    a one-element array the string of its element ([null] gives the empty
    string, a number its own numeral), and a longer one contains a comma,
    which no numeric string does.  An object gives "[object Object]". *)
Fixpoint ToNumber_value (v : value) : number :=
  match v with
  | JNull => Fin 0
  | JBool b => if b then Fin 1 else Fin 0
  | JNumber q => Fin q
  | JString s => StringToNumber s
  | JObject _ => NaN
  | JArray [] => Fin 0
  | JArray [e] =>
      match e with
      | JNull => Fin 0
      | JBool _ => NaN
      | JNumber q => Fin q
      | JString s => StringToNumber s
      | JObject _ => NaN
      | JArray _ => ToNumber_value e
      end
  | JArray (_ :: _ :: _) => NaN
  end.

Definition ToNumber (v : option value) : number :=
  match v with
  | None => NaN
  | Some u => ToNumber_value u
  end.

(** [ToBoolean], the truthiness of a property value. *)
Definition ToBoolean (v : option value) : bool :=
  match v with
  | None | Some JNull => false
  | Some (JBool b) => b
  | Some (JNumber q) => negb (Qeq_bool q 0)
  | Some (JString s) => match s with [] => false | _ :: _ => true end
  | Some (JArray _) | Some (JObject _) => true
  end.

(** [typeof v === 'number']. *)
Definition typeof_number (v : option value) : bool :=
  match v with
  | Some (JNumber _) => true
  | _ => false
  end.

(** [v === s] for a string literal [s]. *)
Definition strict_equals_string (v : option value) (s : jsstring) : bool :=
  match v with
  | Some (JString u) => jsstring_eqb u s
  | _ => false
  end.

(** The own property [k] of a parsed object: the last member of that name
    wins. *)
Fixpoint lookup (k : jsstring) (ms : list (jsstring * value))
    : option value :=
  match ms with
  | [] => None
  | (k', v) :: rest =>
      match lookup k rest with
      | Some v' => Some v'
      | None => if jsstring_eqb k' k then Some v else None
      end
  end.

(** [json.k] for the names [state], [x] and [y], which no prototype
    defines: the outer [None] is the [TypeError] of reading a property of
    [null], the inner one is [undefined]. *)
Definition Get (json : value) (k : jsstring) : option (option value) :=
  match json with
  | JNull => None
  | JObject ms => Some (lookup k ms)
  | _ => Some None
  end.

End Conversions.

(* ===================================================================== *)
(** ** services/geminiLiveService.ts *)
(* ===================================================================== *)

Module GeminiLiveService.

Import JSON Conversions.

(** *** The pattern [/\{.*\}/] *)

Definition is_line_terminator (c : N) : bool :=
  (c =? 10)%N || (c =? 13)%N || (c =? 8232)%N || (c =? 8233)%N.

(** What a greedy [.*] consumes: everything up to the first line
    terminator. *)
Fixpoint dot_star (s : jsstring) : jsstring :=
  match s with
  | c :: rest => if is_line_terminator c then [] else c :: dot_star rest
  | [] => []
  end.

(** Backtracking from the end of [run] to its last closing brace. *)
Fixpoint upto_last_brace (run : jsstring) : option jsstring :=
  match run with
  | [] => None
  | c :: rest =>
      match upto_last_brace rest with
      | Some m => Some (c :: m)
      | None => if (c =? 125)%N then Some [c] else None
      end
  end.

(** [text.match(/\{.*\}/)]: the first opening brace from which the pattern
    matches; the result is [match[0]]. *)
Fixpoint regex_match (text : jsstring) : option jsstring :=
  match text with
  | [] => None
  | c :: rest =>
      if (c =? 123)%N then
        match upto_last_brace (dot_star rest) with
        | Some m => Some (c :: m)
        | None => regex_match rest
        end
      else regex_match rest
  end.

(** *** arrayBufferToBase64 *)

Definition base64_alphabet : jsstring :=
  utf16 "ABCDEFGHIJKLMNOPQRSTUVWXYZabcdefghijklmnopqrstuvwxyz0123456789+/".

(** The character of a six-bit value. *)
Definition sextet_char (i : N) : N := nth (N.to_nat i) base64_alphabet 61%N.

(** Base64 of a sequence of octets: three octets give four characters, and
    a last group of one or two octets is padded with the equals sign (61). *)
Fixpoint base64_of_octets (l : list N) : jsstring :=
  match l with
  | a :: b :: c :: rest =>
      sextet_char (a / 4)
      :: sextet_char ((a mod 4) * 16 + b / 16)
      :: sextet_char ((b mod 16) * 4 + c / 64)
      :: sextet_char (c mod 64)
      :: base64_of_octets rest
  | [a; b] =>
      [sextet_char (a / 4); sextet_char ((a mod 4) * 16 + b / 16);
       sextet_char ((b mod 16) * 4); 61]
  | [a] => [sextet_char (a / 4); sextet_char ((a mod 4) * 16); 61; 61]
  | [] => []
  end%N.

(** [btoa(binary)]; [None] is the [InvalidCharacterError] thrown when a code
    unit of the string is above 255. *)
Definition btoa (binary : jsstring) : option jsstring :=
  if forallb (fun c => (c <=? 255)%N) binary
  then Some (base64_of_octets binary)
  else None.

(** The loop [binary += String.fromCharCode(bytes[i])] over the bytes of
    the buffer, then [btoa]. *)
Definition arrayBufferToBase64 (buffer : list byte) : option jsstring :=
  let binary :=
    fold_left (fun binary b => binary ++ [Byte.to_N b]) buffer [] in
  btoa binary.

(** The inverse direction of the encoding, for padded input: the six-bit
    value of a character, and the octets of groups of four characters. *)
Fixpoint index_from (k : N) (alphabet : jsstring) (c : N) : option N :=
  match alphabet with
  | [] => None
  | a :: rest => if (a =? c)%N then Some k else index_from (k + 1) rest c
  end.

Definition sextet_of_char (c : N) : option N := index_from 0 base64_alphabet c.

Fixpoint octets_of_base64 (s : jsstring) : option (list N) :=
  match s with
  | [] => Some []
  | [c1; c2; c3; c4] =>
      match sextet_of_char c1, sextet_of_char c2 with
      | Some q1, Some q2 =>
          if (c3 =? 61)%N && (c4 =? 61)%N then Some [q1 * 4 + q2 / 16]%N
          else
            match sextet_of_char c3 with
            | Some q3 =>
                if (c4 =? 61)%N
                then Some [q1 * 4 + q2 / 16; (q2 mod 16) * 16 + q3 / 4]%N
                else
                  match sextet_of_char c4 with
                  | Some q4 =>
                      Some [q1 * 4 + q2 / 16; (q2 mod 16) * 16 + q3 / 4;
                            (q3 mod 4) * 64 + q4]%N
                  | None => None
                  end
            | None => None
            end
      | _, _ => None
      end
  | c1 :: c2 :: c3 :: c4 :: rest =>
      match sextet_of_char c1, sextet_of_char c2, sextet_of_char c3,
            sextet_of_char c4, octets_of_base64 rest with
      | Some q1, Some q2, Some q3, Some q4, Some tl =>
          Some ((q1 * 4 + q2 / 16) :: ((q2 mod 16) * 16 + q3 / 4)
                :: ((q3 mod 4) * 64 + q4) :: tl)%N
      | _, _, _, _, _ => None
      end
  | _ => None
  end.

(** *** The session promise and the host *)

(** [this.sessionPromise], the promise returned by [ai.live.connect]. A
    pending promise holds the reactions registered with [then]; the
    reactions of this service are the ones of the capture timer, each with
    the frame it captured. *)
Inductive Promise : Type :=
| Pending (reactions : list string)
| Fulfilled
| Rejected.

Record Media : Type := mkMedia {
  data : string;
  mimeType : string
}.

Inductive Job : Type :=
| SendFrame (base64Data : string)
| RejectDerived.

(** What lies outside the service: the microtask queue, the inputs that
    the remote session has received through [sendRealtimeInput], and the
    promise rejections reported as unhandled. *)
Record Host : Type := mkHost {
  jobs : list Job;
  realtimeInput : list Media;
  unhandledRejections : nat
}.

(** The interval timers of the window: the next identifier to hand out
    (identifiers are positive) and the identifiers of the running timers. *)
Record Timers : Type := mkTimers {
  next_timer : N;
  running : list N
}.

(** [window.setInterval(callback, ms)]. *)
Definition setInterval (t : Timers) : N * Timers :=
  (next_timer t,
   {| next_timer := (next_timer t + 1)%N;
      running := running t ++ [next_timer t] |}).

(** [clearInterval(id)]. *)
Definition clearInterval (id : N) (t : Timers) : Timers :=
  {| next_timer := next_timer t;
     running := filter (fun i => negb (i =? id)%N) (running t) |}.

Section Service.

(** The state of the observer that the registered callback updates. *)
Context {W : Type}.

Record GeminiLiveService : Type := mkService {
  sessionPromise : option Promise;
  onHandDataCallback : option (HandData -> W -> W);
  videoInterval : option N
}.

Definition new_GeminiLiveService : GeminiLiveService :=
  {| sessionPromise := None;
     onHandDataCallback := None;
     videoInterval := None |}.

Definition setOnHandData (callback : HandData -> W -> W)
    (this : GeminiLiveService) : GeminiLiveService :=
  {| sessionPromise := sessionPromise this;
     onHandDataCallback := Some callback;
     videoInterval := videoInterval this |}.

(** [connect()] up to its [await]: the promise is stored while pending. *)
Definition connect (this : GeminiLiveService) : GeminiLiveService :=
  {| sessionPromise := Some (Pending []);
     onHandDataCallback := onHandDataCallback this;
     videoInterval := videoInterval this |}.

(** *** tryParseJSON *)

(** Every exception raised in the [try] block is caught and ignored: the
    observer state is then returned unchanged. *)
Definition tryParseJSON (this : GeminiLiveService) (text : jsstring)
    (w : W) : W :=
  match regex_match text with
  | None => w
  | Some match0 =>
      match JSON.parse match0 with
      | None => w
      | Some json =>
          match Get json (utf16 "state"), Get json (utf16 "x"),
                Get json (utf16 "y") with
          | Some json_state, Some json_x, Some json_y =>
              if ToBoolean json_state && typeof_number json_x then
                match onHandDataCallback this with
                | Some callback =>
                    callback
                      {| state :=
                           if strict_equals_string json_state (utf16 "OPEN")
                           then OPEN else CLOSED;
                         x := max (Fin (-1)) (min (Fin 1) (ToNumber json_x));
                         y := max (Fin (-1)) (min (Fin 1) (ToNumber json_y)) |}
                      w
                | None => w
                end
              else w
          | _, _, _ => w
          end
      end
  end.

(** *** handleMessage *)

Record Part : Type := mkPart { text : option jsstring }.
Record Content : Type := mkContent { parts : option (list Part) }.
Record ServerContent : Type := mkServerContent { modelTurn : option Content }.
Record LiveServerMessage : Type :=
  mkMessage { serverContent : option ServerContent }.

Definition message_parts (message : LiveServerMessage) : list Part :=
  match serverContent message with
  | Some sc =>
      match modelTurn sc with
      | Some mt => match parts mt with Some ps => ps | None => [] end
      | None => []
      end
  | None => []
  end.

Definition handleMessage (this : GeminiLiveService)
    (message : LiveServerMessage) (w : W) : W :=
  fold_left
    (fun w' part =>
       match text part with
       | Some ((_ :: _) as t) => tryParseJSON this t w'
       | _ => w'
       end)
    (message_parts message) w.

(** *** The frame-capture timer of startVideoStreaming *)

(** [promise.then(reaction)] for the reaction of the timer callback. *)
Definition then_ (p : Promise) (base64Data : string) (h : Host)
    : Promise * Host :=
  match p with
  | Pending reactions => (Pending (reactions ++ [base64Data]), h)
  | Fulfilled =>
      (Fulfilled,
       {| jobs := jobs h ++ [SendFrame base64Data];
          realtimeInput := realtimeInput h;
          unhandledRejections := unhandledRejections h |})
  | Rejected =>
      (Rejected,
       {| jobs := jobs h ++ [RejectDerived];
          realtimeInput := realtimeInput h;
          unhandledRejections := unhandledRejections h |})
  end.

(** One tick of the interval callback. [ctx] tells whether the canvas has a
    2d context, [videoWidth] is [videoElement.videoWidth], and [base64Data]
    is what the canvas yields for the current video frame. *)
Definition tick (ctx : bool) (videoWidth : N) (base64Data : string)
    (sh : GeminiLiveService * Host) : GeminiLiveService * Host :=
  let '(this, h) := sh in
  match sessionPromise this with
  | None => sh
  | Some p =>
      if negb ctx || (videoWidth =? 0)%N then sh
      else
        let '(p', h') := then_ p base64Data h in
        ({| sessionPromise := Some p';
            onHandDataCallback := onHandDataCallback this;
            videoInterval := videoInterval this |}, h')
  end.

(** The reaction of the timer: the frame, then the text prompt (the base64
    encoding of the words Analyze hand). *)
Definition run_job (h : Host) (j : Job) : Host :=
  match j with
  | SendFrame base64Data =>
      {| jobs := jobs h;
         realtimeInput :=
           realtimeInput h
           ++ [ {| data := base64Data; mimeType := "image/jpeg" |};
                {| data := "QW5hbHl6ZSBoYW5k"; mimeType := "text/plain" |} ];
         unhandledRejections := unhandledRejections h |}
  | RejectDerived =>
      {| jobs := jobs h;
         realtimeInput := realtimeInput h;
         unhandledRejections := S (unhandledRejections h) |}
  end.

(** The microtask checkpoint that follows every task. *)
Definition run_microtasks (h : Host) : Host :=
  fold_left run_job (jobs h)
    {| jobs := [];
       realtimeInput := realtimeInput h;
       unhandledRejections := unhandledRejections h |}.

(** A timer task: the callback, then the microtasks. *)
Definition timer_task (ctx : bool) (videoWidth : N) (base64Data : string)
    (sh : GeminiLiveService * Host) : GeminiLiveService * Host :=
  let '(this, h) := tick ctx videoWidth base64Data sh in
  (this, run_microtasks h).

(** The session promise settles: its reactions become jobs, which run in
    the same checkpoint. *)
Definition settle (fulfilled : bool) (sh : GeminiLiveService * Host)
    : GeminiLiveService * Host :=
  let '(this, h) := sh in
  match sessionPromise this with
  | Some (Pending reactions) =>
      ({| sessionPromise := Some (if fulfilled then Fulfilled else Rejected);
          onHandDataCallback := onHandDataCallback this;
          videoInterval := videoInterval this |},
       run_microtasks
         {| jobs :=
              jobs h ++ List.map (fun b => if fulfilled then SendFrame b
                                           else RejectDerived) reactions;
            realtimeInput := realtimeInput h;
            unhandledRejections := unhandledRejections h |})
  | _ => sh
  end.

(** *** startVideoStreaming and stop *)

(** [startVideoStreaming]: the interval whose callback is [tick] is created
    and its identifier stored in [this.videoInterval]. *)
Definition startVideoStreaming (this : GeminiLiveService) (t : Timers)
    : GeminiLiveService * Timers :=
  let '(id, t') := setInterval t in
  ({| sessionPromise := sessionPromise this;
      onHandDataCallback := onHandDataCallback this;
      videoInterval := Some id |}, t').

(** [stop]: [if (this.videoInterval) clearInterval(this.videoInterval)];
    the field keeps its value. *)
Definition stop (this : GeminiLiveService) (t : Timers) : Timers :=
  match videoInterval this with
  | Some id => if (id =? 0)%N then t else clearInterval id t
  | None => t
  end.

End Service.

Arguments GeminiLiveService : clear implicits.

End GeminiLiveService.

(** [App]'s observer: [setHandData(data)] replaces the signal. *)
Definition App_initial_handData : HandData :=
  {| state := CLOSED; x := Fin 0; y := Fin 0 |}.

Definition App_setHandData (data : HandData) (_ : HandData) : HandData := data.

(** An observer that records every call it receives, latest first. *)
Definition recorder (data : HandData) (log : list HandData) : list HandData :=
  data :: log.

(* ===================================================================== *)
(** ** The application component ([App]) *)
(* ===================================================================== *)

Module App.

Record State : Type := mkState {
  started : bool;
  loading : bool;
  error : option string;
  handData : HandData
}.

(** The initial values of the four [useState] hooks. *)
Definition initial : State :=
  {| started := false; loading := false; error := None;
     handData := App_initial_handData |}.

(** What the awaited calls of [handleStart] do in a run: whether
    [getUserMedia], [play] and [connect] fulfil, and whether
    [videoRef.current] is set. *)
Record Env : Type := mkEnv {
  getUserMedia_ok : bool;
  videoRef_current : bool;
  play_ok : bool;
  connect_ok : bool
}.

(** What a run of [handleStart] did outside the component state. *)
Record Effects : Type := mkEffects {
  stream_attached : bool;
  connect_called : bool;
  streaming_started : bool
}.

Definition failure_message : string :=
  "Failed to initialize. Ensure Camera/Mic permissions are granted and API Key is valid.".

(** The [catch] and [finally] blocks. *)
Definition failed (st : State) (eff : Effects) : State * Effects :=
  ({| started := started st; loading := false;
      error := Some failure_message; handData := handData st |}, eff).

(** [handleStart]: [setLoading(true); setError(null)], the three steps of
    the [try] block, and [setLoading(false)] in every case. *)
Definition handleStart (env : Env) (st : State) : State * Effects :=
  if negb (getUserMedia_ok env) then
    failed st {| stream_attached := false; connect_called := false;
                 streaming_started := false |}
  else if videoRef_current env && negb (play_ok env) then
    failed st {| stream_attached := true; connect_called := false;
                 streaming_started := false |}
  else if negb (connect_ok env) then
    failed st {| stream_attached := videoRef_current env;
                 connect_called := true; streaming_started := false |}
  else
    ({| started := true; loading := false; error := None;
        handData := handData st |},
     {| stream_attached := videoRef_current env; connect_called := true;
        streaming_started := videoRef_current env |}).

(** The status line, rendered once started. *)
Definition status_label (st : State) : option string :=
  if started st then
    Some (if HandState_eqb (state (handData st)) OPEN
          then "UNLEASHED"%string else "SECURE"%string)
  else None.

End App.

(* ===================================================================== *)
(** ** Vocabulary of the properties *)
(* ===================================================================== *)

Module FS := Tree.FoliageSystem.
Module ID := Tree.InstancedDecor.

(** A progress value that is a rational in [[0,1]]. *)
Definition in_unit (n : number) : Prop :=
  match n with
  | Fin q => 0 <= q <= 1
  | _ => False
  end.

(** The rational reading of [lerp], of the target and of the speeds. *)
Definition lerpQ (p T t : Q) : Q := (1 + - t) * p + t * T.

Definition goal (s : HandState) : Q :=
  if HandState_eqb s OPEN then 0 else 1.

Definition foliage_rate (s : HandState) : Q :=
  if HandState_eqb s OPEN then 5 # 2 else 1.

Definition decor_rate (weight : Q) (s : HandState) : Q :=
  (if HandState_eqb s OPEN then 3 else 3 # 2) / weight.

(** The interpolation coefficient of a frame. *)
Definition coefficient (rate : HandState -> Q) (f : Frame) : Q :=
  delta f * rate (state (handData f)).

Definition progressQ (rate : HandState -> Q) (p : Q) (f : Frame) : Q :=
  lerpQ p (goal (state (handData f))) (coefficient rate f).

(** A frame is moderate for an entity when its coefficient is in [[0,1]]:
    the elapsed time is not negative and at most the inverse of the
    speed. *)
Definition moderate (rate : HandState -> Q) (f : Frame) : Prop :=
  0 <= coefficient rate f <= 1.

(** The signal is held at [s] in the frame. *)
Definition held (s : HandState) (f : Frame) : Prop :=
  state (handData f) = s.

(** The signals that a text makes the parser publish, latest first. *)
Definition published (text : jsstring) : list HandData :=
  GeminiLiveService.tryParseJSON
    (GeminiLiveService.setOnHandData recorder
       GeminiLiveService.new_GeminiLiveService)
    text [].

(** The clamp of the specification. *)
Definition clamp (q : Q) : Q :=
  if Qle_bool q (-1) then -1 else if Qle_bool 1 q then 1 else q.

(** [text] contains [obj] as a contiguous part. *)
Definition contains (text obj : jsstring) : Prop :=
  exists pre post, text = pre ++ obj ++ post.


(** An animated entity with its refs: the foliage, or a decor group with its
    weight and items. *)
Inductive Entity : Type :=
| Foliage (r : FS.Refs)
| Decor (weight : Q) (data : list ID.Item) (r : ID.Refs).

Definition entity_progress (e : Entity) : number :=
  match e with
  | Foliage r => FS.currentProgress r
  | Decor _ _ r => ID.currentProgress r
  end.

Definition entity_frame (e : Entity) (f : Frame) : Entity :=
  match e with
  | Foliage r => Foliage (FS.frame r f)
  | Decor w data r => Decor w data (ID.frame w data r f)
  end.

Definition entity_run (fs : list Frame) (e : Entity) : Entity :=
  fold_left entity_frame fs e.

Definition entity_rate (e : Entity) : HandState -> Q :=
  match e with
  | Foliage _ => foliage_rate
  | Decor w _ _ => decor_rate w
  end.

(** The object that the frame callback guards on is attached. *)
Definition attached (e : Entity) : Prop :=
  match e with
  | Foliage r => FS.shaderRef r <> None
  | Decor _ _ r => ID.meshRef r <> None
  end.

Definition positive_weight (e : Entity) : Prop :=
  match e with
  | Foliage _ => True
  | Decor w _ _ => 0 < w
  end.

(** The entities as the components create them. *)
Definition new_foliage : Entity := Foliage FS.initial.

Definition new_decor (weight : Q) (data : list ID.Item) : Entity :=
  Decor weight data (ID.initial (List.length data)).

(** The part of the distance to the target that is left after frames with
    the signal held: the product of [1 - coefficient]. *)
Fixpoint remaining (rate : HandState -> Q) (fs : list Frame) : Q :=
  match fs with
  | [] => 1
  | f :: fs' => (1 - coefficient rate f) * remaining rate fs'
  end.

(** Sample inputs: a signal with the hand at the centre, one decor item,
    and a frame with a given state and elapsed time. *)
Definition signal (s : HandState) : HandData :=
  {| state := s; x := Fin 0; y := Fin 0 |}.

Definition sample_item : ID.Item :=
  {| ID.target := mkVector3 (Fin 1) (Fin 2) (Fin 3);
     ID.chaos := mkVector3 (Fin (-8)) (Fin 4) (Fin 6);
     ID.scale := Fin (1 # 4);
     ID.rotation := mkEuler (Fin 1) (Fin 2) (Fin 0);
     ID.chaosRotation := mkEuler (Fin 3) (Fin 1) (Fin 0) |}.

Definition frame_of (s : HandState) (dt : Q) : Frame :=
  {| handData := signal s; elapsedTime := 0; delta := dt |}.


(** The cubic ease-out of a progress value and the linear interpolation
    from a chaos coordinate to a target coordinate with that coefficient. *)
Definition easeQ (t : Q) : Q := 1 - (1 - t) ^ 3.

Definition blendQ (chaos target t : Q) : Q :=
  (1 - easeQ t) * chaos + easeQ t * target.

Definition vec_same (u v : Vector3) : Prop :=
  vec_x u =~ vec_x v /\ vec_y u =~ vec_y v /\ vec_z u =~ vec_z v.

Definition vecQ (a b c : Q) : Vector3 := mkVector3 (Fin a) (Fin b) (Fin c).


Definition light_decor : Entity :=
  new_decor Tree.weight_fairy_lights [sample_item].

Definition heavy_decor : Entity :=
  new_decor Tree.weight_gifts [sample_item].

Definition hand_right : HandData :=
  {| state := CLOSED; x := Fin 1; y := Fin 0 |}.

Definition hand_low_right : HandData :=
  {| state := OPEN; x := Fin (1 # 2); y := Fin (- (1 # 2)) |}.

Definition short_frame : Frame :=
  {| handData := hand_right; elapsedTime := 0; delta := 1 # 60 |}.

Definition long_frame : Frame :=
  {| handData := hand_right; elapsedTime := 0; delta := 1 # 30 |}.

Definition valid_object : jsstring := quoted "{'state':'OPEN','x':0,'y':0}".

Definition valid_members : list (jsstring * JSON.value) :=
  [(utf16 "state", JSON.JString (utf16 "OPEN"));
   (utf16 "x", JSON.JNumber 0);
   (utf16 "y", JSON.JNumber 0)].

Definition two_line_object : jsstring :=
  quoted "{'state':'OPEN'," ++ [10%N] ++ quoted "'x':0,'y':0}".

Definition unknown_text : jsstring :=
  quoted "{'state':'UNKNOWN','x':0.25,'y':0}".

Definition unknown_signal : HandData :=
  {| state := CLOSED; x := Fin (25 # 100); y := Fin 0 |}.

Definition App_service : GeminiLiveService.GeminiLiveService HandData :=
  GeminiLiveService.setOnHandData App_setHandData
    GeminiLiveService.new_GeminiLiveService.

Definition idle_host : GeminiLiveService.Host :=
  {| GeminiLiveService.jobs := [];
     GeminiLiveService.realtimeInput := [];
     GeminiLiveService.unhandledRejections := 0 |}.

(** ** Vocabulary of the further properties *)

(** A closing brace follows on the same line: [s] starts with characters
    that are not line terminators, then a closing brace. *)
Definition closes_on_line (s : jsstring) : Prop :=
  exists body rest,
    s = body ++ 125%N :: rest
    /\ forall c, In c body -> GeminiLiveService.is_line_terminator c = false.

(** The signals that a message makes the service publish, latest first. *)
Definition message_published (message : GeminiLiveService.LiveServerMessage)
    : list HandData :=
  GeminiLiveService.handleMessage
    (GeminiLiveService.setOnHandData recorder
       GeminiLiveService.new_GeminiLiveService)
    message [].

(** The texts of the parts on which [handleMessage] calls the parser. *)
Definition parsed_texts (message : GeminiLiveService.LiveServerMessage)
    : list jsstring :=
  flat_map
    (fun part =>
       match GeminiLiveService.text part with
       | Some (c :: t) => [c :: t]
       | _ => []
       end)
    (GeminiLiveService.message_parts message).

(** The two inputs that the reaction of one tick sends. *)
Definition submission (base64Data : string) : list GeminiLiveService.Media :=
  [ {| GeminiLiveService.data := base64Data;
       GeminiLiveService.mimeType := "image/jpeg" |};
    {| GeminiLiveService.data := "QW5hbHl6ZSBoYW5k";
       GeminiLiveService.mimeType := "text/plain" |} ].

(** Timer tasks for a sequence of captured frames, with a 2d context and a
    video of the given width. *)
Definition timer_tasks {W : Type} (videoWidth : N) (frames : list string)
    (sh : GeminiLiveService.GeminiLiveService W * GeminiLiveService.Host)
    : GeminiLiveService.GeminiLiveService W * GeminiLiveService.Host :=
  fold_left (fun sh' b => GeminiLiveService.timer_task true videoWidth b sh')
            frames sh.

(** Identifiers handed out so far are positive and below the next one. *)
Definition timers_ok (t : GeminiLiveService.Timers) : Prop :=
  (0 < GeminiLiveService.next_timer t)%N
  /\ forall i, In i (GeminiLiveService.running t) ->
               (0 < i < GeminiLiveService.next_timer t)%N.

(** A number that is a rational in the given interval. *)
Definition in_range (lo hi : Q) (n : number) : Prop :=
  match n with
  | Fin q => lo <= q <= hi
  | _ => False
  end.

(** A vector of rationals. *)
Definition finite_vec (v : Vector3) : Prop :=
  exists a b c, v = vecQ a b c.

(** Sample inputs of the further properties. *)
Definition two_part_message : GeminiLiveService.LiveServerMessage :=
  {| GeminiLiveService.serverContent :=
       Some {| GeminiLiveService.modelTurn :=
                 Some {| GeminiLiveService.parts :=
                           Some [ {| GeminiLiveService.text :=
                                       Some valid_object |};
                                  {| GeminiLiveService.text := None |};
                                  {| GeminiLiveService.text :=
                                       Some unknown_text |} ] |} |} |}.

Definition fresh_timers : GeminiLiveService.Timers :=
  {| GeminiLiveService.next_timer := 1; GeminiLiveService.running := [] |}.

Definition no_y_text : jsstring := quoted "{'state':'OPEN','x':0.5}".

(* ===================================================================== *)
(** * Properties *)
(* ===================================================================== *)

(** ** Rational arithmetic of the interpolation *)

Lemma lerpQ_error (p T t : Q) : lerpQ p T t - T == (1 - t) * (p - T).
Proof. unfold lerpQ. ring. Qed.

Lemma lerpQ_between_up (p t : Q) :
  0 <= t <= 1 -> p <= 1 -> p <= lerpQ p 1 t <= 1.
Proof. unfold lerpQ. intros [H0 H1] Hp. split; nra. Qed.

Lemma lerpQ_between_down (p t : Q) :
  0 <= t <= 1 -> 0 <= p -> 0 <= lerpQ p 0 t <= p.
Proof. unfold lerpQ. intros [H0 H1] Hp. split; nra. Qed.

Lemma goal_cases (s : HandState) :
  (s = OPEN /\ goal s = 0) \/ (s <> OPEN /\ goal s = 1).
Proof. destruct s; [right | left | right]; split; (reflexivity || discriminate). Qed.

Lemma progressQ_in_unit (rate : HandState -> Q) (p : Q) (f : Frame) :
  moderate rate f -> 0 <= p <= 1 -> 0 <= progressQ rate p f <= 1.
Proof.
  unfold moderate, progressQ. intros Hm [Hp0 Hp1].
  destruct (goal_cases (state (handData f))) as [[_ ->] | [_ ->]].
  - pose proof (lerpQ_between_down p _ Hm Hp0). lra.
  - pose proof (lerpQ_between_up p _ Hm Hp1). lra.
Qed.

(** ** The frame callbacks, read on rationals *)

Lemma foliage_frame_detached (r : FS.Refs) (f : Frame) :
  FS.shaderRef r = None -> FS.frame r f = r.
Proof. unfold FS.frame, FS.useFrame. intros ->. reflexivity. Qed.

Lemma foliage_frame_progress (r : FS.Refs) (f : Frame) (p : Q) :
  FS.shaderRef r <> None ->
  FS.currentProgress r = Fin p ->
  FS.shaderRef (FS.frame r f) <> None
  /\ FS.currentProgress (FS.frame r f) = Fin (progressQ foliage_rate p f).
Proof.
  unfold FS.frame, FS.useFrame. intros Hs Hp.
  destruct (FS.shaderRef r) as [u |]; [| congruence].
  cbn [FS.shaderRef FS.currentProgress]. rewrite Hp.
  unfold progressQ, coefficient, goal, foliage_rate.
  destruct (HandState_eqb (state (handData f)) OPEN);
    (split; [discriminate | reflexivity]).
Qed.

Lemma foliage_run_progress (fs : list Frame) (r : FS.Refs) (p : Q) :
  FS.shaderRef r <> None ->
  FS.currentProgress r = Fin p ->
  FS.shaderRef (FS.run fs r) <> None
  /\ FS.currentProgress (FS.run fs r)
     = Fin (fold_left (progressQ foliage_rate) fs p).
Proof.
  revert r p. induction fs as [| f fs IH]; intros r p Hs Hp.
  - split; assumption.
  - destruct (foliage_frame_progress r f p Hs Hp) as [Hs' Hp'].
    cbn [FS.run fold_left]. exact (IH _ _ Hs' Hp').
Qed.

Lemma foliage_run_detached (fs : list Frame) (r : FS.Refs) :
  FS.shaderRef r = None -> FS.run fs r = r.
Proof.
  induction fs as [| f fs IH]; intros Hs; [reflexivity |].
  cbn [FS.run fold_left]. rewrite (foliage_frame_detached r f Hs).
  exact (IH Hs).
Qed.

Lemma div_Fin (a w : Q) : ~ w == 0 -> (Fin a / Fin w)%num = Fin (a / w).
Proof.
  intros Hw. cbn [div].
  destruct (Qeq_bool w 0) eqn:E; [| reflexivity].
  apply Qeq_bool_iff in E. contradiction.
Qed.

Lemma decor_useFrame_progress (weight : number) (data : list ID.Item)
    (hd : HandData) (e d : number) (r : ID.Refs) :
  ID.meshRef r <> None ->
  ID.meshRef (ID.useFrame weight data hd e d r) <> None
  /\ ID.currentProgress (ID.useFrame weight data hd e d r)
     = MathUtils.lerp (ID.currentProgress r)
         (if HandState_eqb (state hd) OPEN then Fin 0 else Fin 1)
         (d * ((if HandState_eqb (state hd) OPEN then Fin 3 else Fin (3 # 2))
               / weight))%num.
Proof.
  unfold ID.useFrame. intros Hm.
  destruct (ID.meshRef r) as [ms |]; [| congruence].
  destruct (fold_left _ _ _) as [d' ms'].
  split; [discriminate | reflexivity].
Qed.

Lemma decor_frame_detached (w : Q) (data : list ID.Item) (r : ID.Refs)
    (f : Frame) :
  ID.meshRef r = None -> ID.frame w data r f = r.
Proof. unfold ID.frame, ID.useFrame. intros ->. reflexivity. Qed.

Lemma decor_frame_progress (w : Q) (data : list ID.Item) (r : ID.Refs)
    (f : Frame) (p : Q) :
  ~ w == 0 ->
  ID.meshRef r <> None ->
  ID.currentProgress r = Fin p ->
  ID.meshRef (ID.frame w data r f) <> None
  /\ ID.currentProgress (ID.frame w data r f)
     = Fin (progressQ (decor_rate w) p f).
Proof.
  intros Hw Hm Hp. unfold ID.frame.
  destruct (decor_useFrame_progress (Fin w) data (handData f)
              (Fin (elapsedTime f)) (Fin (delta f)) r Hm) as [Hm' ->].
  split; [exact Hm' |]. rewrite Hp.
  unfold progressQ, coefficient, goal, decor_rate.
  destruct (HandState_eqb (state (handData f)) OPEN);
    rewrite (div_Fin _ w Hw); reflexivity.
Qed.

Lemma decor_run_progress (w : Q) (data : list ID.Item) (fs : list Frame)
    (r : ID.Refs) (p : Q) :
  ~ w == 0 ->
  ID.meshRef r <> None ->
  ID.currentProgress r = Fin p ->
  ID.meshRef (ID.run w data fs r) <> None
  /\ ID.currentProgress (ID.run w data fs r)
     = Fin (fold_left (progressQ (decor_rate w)) fs p).
Proof.
  intros Hw. revert r p. induction fs as [| f fs IH]; intros r p Hm Hp.
  - split; assumption.
  - destruct (decor_frame_progress w data r f p Hw Hm Hp) as [Hm' Hp'].
    cbn [ID.run fold_left]. exact (IH _ _ Hm' Hp').
Qed.

Lemma decor_run_detached (w : Q) (data : list ID.Item) (fs : list Frame)
    (r : ID.Refs) :
  ID.meshRef r = None -> ID.run w data fs r = r.
Proof.
  induction fs as [| f fs IH]; intros Hm; [reflexivity |].
  cbn [ID.run fold_left]. rewrite (decor_frame_detached w data r f Hm).
  exact (IH Hm).
Qed.

Lemma fold_progressQ_in_unit (rate : HandState -> Q) (fs : list Frame)
    (p : Q) :
  Forall (moderate rate) fs -> 0 <= p <= 1 ->
  0 <= fold_left (progressQ rate) fs p <= 1.
Proof.
  revert p. induction fs as [| f fs IH]; intros p Hfs Hp; [exact Hp |].
  inversion Hfs as [| ? ? Hf Hrest]; subst.
  cbn [fold_left]. apply IH; [assumption |].
  apply progressQ_in_unit; assumption.
Qed.

(** ** Entities *)

Lemma entity_run_Foliage (fs : list Frame) (r : FS.Refs) :
  entity_run fs (Foliage r) = Foliage (FS.run fs r).
Proof.
  revert r. induction fs as [| f fs IH]; intros r; [reflexivity |].
  cbn [entity_run fold_left entity_frame]. apply IH.
Qed.

Lemma entity_run_Decor (fs : list Frame) (w : Q) (data : list ID.Item)
    (r : ID.Refs) :
  entity_run fs (Decor w data r) = Decor w data (ID.run w data fs r).
Proof.
  revert r. induction fs as [| f fs IH]; intros r; [reflexivity |].
  cbn [entity_run fold_left entity_frame]. apply IH.
Qed.

Lemma positive_nonzero (w : Q) : 0 < w -> ~ w == 0.
Proof. intros H E. rewrite E in H. exact (Qlt_irrefl 0 H). Qed.

(** With its object attached, an entity's progress follows the rational
    recurrence. *)
Lemma entity_run_progress (fs : list Frame) (e : Entity) (p : Q) :
  attached e -> positive_weight e ->
  entity_progress e = Fin p ->
  attached (entity_run fs e)
  /\ entity_progress (entity_run fs e)
     = Fin (fold_left (progressQ (entity_rate e)) fs p).
Proof.
  destruct e as [r | w data r]; cbn [attached positive_weight entity_progress
                                      entity_rate]; intros Ha Hw Hp.
  - rewrite entity_run_Foliage. cbn [attached entity_progress].
    apply foliage_run_progress; assumption.
  - rewrite entity_run_Decor. cbn [attached entity_progress].
    apply decor_run_progress; [apply positive_nonzero |..]; assumption.
Qed.

(** Without it, the frames leave the entity as it is. *)
Lemma entity_run_detached (fs : list Frame) (e : Entity) :
  ~ attached e -> entity_run fs e = e.
Proof.
  destruct e as [r | w data r]; cbn [attached]; intros Hn.
  - rewrite entity_run_Foliage. f_equal. apply foliage_run_detached.
    destruct (FS.shaderRef r); [exfalso; apply Hn; discriminate | reflexivity].
  - rewrite entity_run_Decor. f_equal. apply decor_run_detached.
    destruct (ID.meshRef r); [exfalso; apply Hn; discriminate | reflexivity].
Qed.

Lemma attached_dec (e : Entity) : attached e \/ ~ attached e.
Proof.
  destruct e as [r | w data r]; cbn [attached].
  - destruct (FS.shaderRef r); [left; discriminate | right; congruence].
  - destruct (ID.meshRef r); [left; discriminate | right; congruence].
Qed.

(** ** C1: the range of the progress value *)

(** C1 (as amended). For every entity and every sequence of rendered frames
    in which each frame is moderate for the entity (its elapsed time times
    the entity's speed lies in [[0,1]]), a progress value that starts in
    [[0,1]] is in [[0,1]] after the frames, however the hand state changes
    from frame to frame. *)
Theorem C1_progress_in_unit_when_frames_moderate :
  forall (e : Entity) (fs : list Frame),
    positive_weight e ->
    in_unit (entity_progress e) ->
    Forall (moderate (entity_rate e)) fs ->
    in_unit (entity_progress (entity_run fs e)).
Proof.
  intros e fs Hw Hp Hfs.
  destruct (attached_dec e) as [Ha | Hn].
  - destruct (entity_progress e) as [p | | |] eqn:E; try contradiction.
    destruct (entity_run_progress fs e p Ha Hw E) as [_ ->].
    cbn [in_unit]. apply fold_progressQ_in_unit; assumption.
  - rewrite (entity_run_detached fs e Hn). exact Hp.
Qed.

(** Closed comparisons of rationals. *)
Ltac closed_Q :=
  vm_compute;
  repeat match goal with
         | |- _ /\ _ => split
         | |- _ -> False => let H := fresh in intro H; discriminate H
         | |- ~ _ => let H := fresh in intro H; discriminate H
         | |- _ = _ => reflexivity
         | |- True => exact I
         end.

Lemma C1_witness :
  in_unit (entity_progress
             (entity_run [frame_of OPEN (1 # 4); frame_of CLOSED (1 # 2)]
                (new_decor Tree.weight_gifts [sample_item]))).
Proof.
  apply C1_progress_in_unit_when_frames_moderate.
  - closed_Q.
  - closed_Q.
  - repeat constructor; closed_Q.
Defined.

(** C1 fails as stated: from the initial progress 1, one frame of half a
    second with the hand open takes the foliage to -1/4 and the fairy
    lights (weight 0.8) to -7/8. *)
Lemma C1_counterexample :
  entity_progress (entity_run [frame_of OPEN (1 # 2)] new_foliage)
  =~ Fin (- (1 # 4))
  /\ ~ in_unit (entity_progress (entity_run [frame_of OPEN (1 # 2)] new_foliage))
  /\ entity_progress (entity_run [frame_of OPEN (1 # 2)] light_decor)
     =~ Fin (- (7 # 8))
  /\ ~ in_unit (entity_progress (entity_run [frame_of OPEN (1 # 2)] light_decor)).
Proof.
  split; [closed_Q |]. split.
  { intros [H _]. vm_compute in H. apply H. reflexivity. }
  split; [closed_Q |].
  intros [H _]. vm_compute in H. apply H. reflexivity.
Qed.
(** ** C4: a held signal *)

Lemma held_closed_form (rate : HandState -> Q) (s : HandState)
    (fs : list Frame) (p : Q) :
  Forall (held s) fs ->
  fold_left (progressQ rate) fs p - goal s == remaining rate fs * (p - goal s).
Proof.
  revert p. induction fs as [| f fs IH]; intros p Hh.
  - cbn [fold_left remaining]. ring.
  - inversion Hh as [| ? ? Hf Hrest]; subst.
    cbn [fold_left remaining]. rewrite (IH _ Hrest).
    unfold progressQ. rewrite Hf.
    pose proof (lerpQ_error p (goal s) (coefficient rate f)) as E.
    rewrite E. ring.
Qed.


Lemma entity_rate_pos (e : Entity) (s : HandState) :
  positive_weight e -> 0 < entity_rate e s.
Proof.
  destruct e as [r | w data r]; cbn [positive_weight entity_rate]; intros Hw.
  - unfold foliage_rate. destruct (HandState_eqb s OPEN); reflexivity.
  - unfold decor_rate, Qdiv.
    apply Qmult_lt_0_compat; [| apply Qinv_lt_0_compat; exact Hw].
    destruct (HandState_eqb s OPEN); reflexivity.
Qed.






(** ** C5: weights *)



Lemma Qabs_scale (a e : Q) : 0 <= a -> Qabs (a * e) == a * Qabs e.
Proof. intros Ha. rewrite Qabs_Qmult, (Qabs_pos a Ha). reflexivity. Qed.

Lemma Qabs_pos_of_nonzero (e : Q) : ~ e == 0 -> 0 < Qabs e.
Proof.
  intros Hne. destruct (Qlt_le_dec 0 (Qabs e)) as [H | H]; [exact H |].
  exfalso. apply Hne. apply Qabs_Qle_condition in H. lra.
Qed.




(** ** C6: the target of a frame *)

(** C6. On a frame of the foliage (its material attached) the stored target
    progress is 0 when the state is OPEN and 1 when it is CLOSED or UNKNOWN,
    and the progress moves towards it; on a frame of a decor group (its
    mesh attached) the progress moves towards the same target. *)
Theorem C6_target_progress_of_state :
  forall (hd : HandData) (e d : number),
    let target_of s :=
      match s with OPEN => Fin 0 | CLOSED | UNKNOWN => Fin 1 end in
    (forall r : FS.Refs,
        FS.shaderRef r <> None ->
        FS.targetProgress (FS.useFrame hd e d r) = target_of (state hd)
        /\ FS.currentProgress (FS.useFrame hd e d r)
           = MathUtils.lerp (FS.currentProgress r) (target_of (state hd))
               (d * match state hd with
                    | OPEN => Fin (5 # 2)
                    | CLOSED | UNKNOWN => Fin 1
                    end)%num)
    /\ (forall (weight : number) (data : list ID.Item) (r : ID.Refs),
           ID.meshRef r <> None ->
           ID.currentProgress (ID.useFrame weight data hd e d r)
           = MathUtils.lerp (ID.currentProgress r) (target_of (state hd))
               (d * (match state hd with
                     | OPEN => Fin 3
                     | CLOSED | UNKNOWN => Fin (3 # 2)
                     end / weight))%num).
Proof.
  intros hd e d target_of. split.
  - intros r Hs. unfold FS.useFrame.
    destruct (FS.shaderRef r) as [u |]; [| congruence].
    cbn [FS.targetProgress FS.currentProgress].
    destruct (state hd); split; reflexivity.
  - intros weight data r Hm.
    destruct (decor_useFrame_progress weight data hd e d r Hm) as [_ ->].
    destruct (state hd); reflexivity.
Qed.

Lemma C6_witness :
  (FS.targetProgress (FS.useFrame (signal UNKNOWN) (Fin 0) (Fin (1 # 60))
                        FS.initial) = Fin 1
   /\ FS.targetProgress (FS.useFrame (signal OPEN) (Fin 0) (Fin (1 # 60))
                           FS.initial) = Fin 0)
  /\ ID.currentProgress
       (ID.useFrame (Fin Tree.weight_gifts) [sample_item] (signal OPEN)
          (Fin 0) (Fin (1 # 60)) (ID.initial 1))
     = MathUtils.lerp (Fin 1) (Fin 0)
         (Fin (1 # 60) * (Fin 3 / Fin Tree.weight_gifts))%num.
Proof.
  split; [split |].
  - apply (proj1 (C6_target_progress_of_state (signal UNKNOWN) (Fin 0)
                    (Fin (1 # 60)))). discriminate.
  - apply (proj1 (C6_target_progress_of_state (signal OPEN) (Fin 0)
                    (Fin (1 # 60)))). discriminate.
  - apply (proj2 (C6_target_progress_of_state (signal OPEN) (Fin 0)
                    (Fin (1 # 60)))). discriminate.
Defined.

(** ** C7: the blended position *)

Lemma setMatrixAt_length (i : nat) (m : ID.Object3D) (ms : list ID.Object3D) :
  List.length (ID.setMatrixAt i m ms) = List.length ms.
Proof.
  revert i. induction ms as [| m0 ms IH]; intros [| j]; cbn; try reflexivity.
  f_equal. apply IH.
Qed.

Lemma setMatrixAt_same (i : nat) (m : ID.Object3D) (ms : list ID.Object3D) :
  (i < List.length ms)%nat -> nth_error (ID.setMatrixAt i m ms) i = Some m.
Proof.
  revert i. induction ms as [| m0 ms IH]; intros [| j] H; cbn in *;
    try lia; [reflexivity |].
  apply IH. lia.
Qed.

Lemma setMatrixAt_other (i j : nat) (m : ID.Object3D) (ms : list ID.Object3D) :
  i <> j -> nth_error (ID.setMatrixAt i m ms) j = nth_error ms j.
Proof.
  revert i j. induction ms as [| m0 ms IH]; intros [| i] [| j] H; cbn;
    try reflexivity; try congruence.
  apply IH. congruence.
Qed.


Lemma lerpVectors_blend (a b c a' b' c' t : Q) :
  vec_same
    (lerpVectors (vecQ a b c) (vecQ a' b' c')
       (Fin 1 - pow (Fin 1 - Fin t) 3)%num)
    (vecQ (blendQ a a' t) (blendQ b b' t) (blendQ c c' t)).
Proof.
  unfold vec_same, lerpVectors, vecQ, blendQ, easeQ. cbn.
  repeat split; ring.
Qed.

Lemma mix_blend (a b c a' b' c' t : Q) :
  vec_same
    (Tree.mix (vecQ a b c) (vecQ a' b' c')
       (Fin 1 - pow (Fin 1 - Fin t) 3)%num)
    (vecQ (blendQ a a' t) (blendQ b b' t) (blendQ c c' t)).
Proof.
  unfold vec_same, Tree.mix, vecQ, blendQ, easeQ. cbn.
  repeat split; ring.
Qed.


Lemma shader_blend_defined (q : Q) (targetPos chaosPos : Vector3) :
  q <= 1 ->
  Tree.foliageVertexShader_blend (Fin q) targetPos chaosPos
  = Some (Tree.mix chaosPos targetPos (Fin 1 - pow (Fin 1 - Fin q) 3)%num).
Proof.
  intros Hq. unfold Tree.foliageVertexShader_blend, Tree.glsl_pow.
  cbn [sub add neg].
  assert (H : Qle_bool 0 (1 + - q) = true) by (apply Qle_bool_iff; lra).
  rewrite H. cbn [negb]. rewrite andb_false_r. reflexivity.
Qed.




(** ** C8: the camera *)

(** C8 (as amended). On every frame the camera's desired offset is linear in
    the signal ([0 - 5 x] and [4 + 3 y]), and the camera position moves
    towards it by [lerp] with the fixed coefficient 0.05: the step depends
    neither on the frame's elapsed time nor on any entity weight, and the
    depth of the camera is left as it is. *)
Theorem C8_camera_follows_signal_with_fixed_coefficient :
  forall (hd : HandData) (qx qy px py : Q) (pz : number),
    x hd = Fin qx -> y hd = Fin qy ->
    let p' :=
      Experience.CameraController_useFrame hd (mkVector3 (Fin px) (Fin py) pz)
    in
    Experience.targetX hd =~ Fin (0 - 5 * qx)
    /\ Experience.targetY hd =~ Fin (4 + 3 * qy)
    /\ vec_x p' =~ Fin (lerpQ px (0 - 5 * qx) (5 # 100))
    /\ vec_y p' =~ Fin (lerpQ py (4 + 3 * qy) (5 # 100))
    /\ vec_z p' = pz
    /\ (forall (f g : Frame) (p : Vector3),
           handData f = hd -> handData g = hd ->
           Experience.camera_frame p f = Experience.camera_frame p g).
Proof.
  intros hd qx qy px py pz Hx Hy p'. subst p'.
  unfold Experience.CameraController_useFrame, Experience.targetX,
    Experience.targetY, MathUtils.lerp.
  rewrite Hx, Hy. cbn [vec_x vec_y vec_z add sub mul neg same].
  unfold lerpQ.
  split; [ring |]. split; [ring |]. split; [ring |]. split; [ring |].
  split; [reflexivity |].
  intros f g p Hf Hg. unfold Experience.camera_frame. rewrite Hf, Hg.
  reflexivity.
Qed.

Lemma C8_witness :
  Experience.targetX hand_low_right =~ Fin (0 - 5 * (1 # 2))
  /\ Experience.targetY hand_low_right =~ Fin (4 + 3 * - (1 # 2))
  /\ vec_x (Experience.CameraController_useFrame hand_low_right
              (mkVector3 (Fin 0) (Fin 4) (Fin 20)))
     =~ Fin (lerpQ 0 (0 - 5 * (1 # 2)) (5 # 100))
  /\ vec_y (Experience.CameraController_useFrame hand_low_right
              (mkVector3 (Fin 0) (Fin 4) (Fin 20)))
     =~ Fin (lerpQ 4 (4 + 3 * - (1 # 2)) (5 # 100))
  /\ vec_z (Experience.CameraController_useFrame hand_low_right
              (mkVector3 (Fin 0) (Fin 4) (Fin 20)))
     = Fin 20
  /\ (forall (f g : Frame) (p : Vector3),
         handData f = hand_low_right -> handData g = hand_low_right ->
         Experience.camera_frame p f = Experience.camera_frame p g).
Proof.
  apply (C8_camera_follows_signal_with_fixed_coefficient hand_low_right
           (1 # 2) (- (1 # 2)) 0 4 (Fin 20)); reflexivity.
Defined.

(** C8 fails as stated: the camera's interpolation is not scaled by the
    frame time.  With the hand at [x = 1], a frame of 1/60 s and a frame of
    1/30 s move the camera from its initial position to the same place,
    [x = -1/4]; an interpolation with coefficient [delta * rate] does so
    for no [rate]. *)
Lemma C8_counterexample :
  vec_x (Experience.camera_frame Experience.initial_camera_position
           short_frame) =~ Fin (- (1 # 4))
  /\ vec_x (Experience.camera_frame Experience.initial_camera_position
              long_frame) =~ Fin (- (1 # 4))
  /\ ~ (exists rate : Q,
          vec_x (Experience.camera_frame Experience.initial_camera_position
                   short_frame)
          =~ MathUtils.lerp (vec_x Experience.initial_camera_position)
               (Experience.targetX hand_right)
               (Fin (delta short_frame * rate))
          /\ vec_x (Experience.camera_frame
                      Experience.initial_camera_position long_frame)
             =~ MathUtils.lerp (vec_x Experience.initial_camera_position)
                  (Experience.targetX hand_right)
                  (Fin (delta long_frame * rate))).
Proof.
  split; [closed_Q |]. split; [closed_Q |].
  intros [rate [H1 H2]].
  cbn in H1, H2. lra.
Qed.

(** ** The parser *)

Import GeminiLiveService Conversions.

Lemma jsstring_eqb_eq (a b : jsstring) : jsstring_eqb a b = true <-> a = b.
Proof.
  revert b. induction a as [| c a IH]; intros [| d b]; cbn;
    try (split; [discriminate | discriminate]); [tauto |].
  rewrite andb_true_iff, N.eqb_eq, IH. split.
  - intros [-> ->]. reflexivity.
  - intros E. injection E as -> ->. split; reflexivity.
Qed.

(** Whatever the observer, the parser calls it on the published signals,
    and on nothing when no observer is registered. *)
Lemma tryParseJSON_calls {W : Type} (this : GeminiLiveService W)
    (text : jsstring) (w : W) :
  tryParseJSON this text w
  = match onHandDataCallback this with
    | Some callback => fold_right callback w (published text)
    | None => w
    end.
Proof.
  unfold published, tryParseJSON.
  cbn [onHandDataCallback setOnHandData].
  destruct (regex_match text) as [match0 |]; [| destruct (onHandDataCallback this); reflexivity].
  destruct (JSON.parse match0) as [json |]; [| destruct (onHandDataCallback this); reflexivity].
  destruct (Get json (utf16 "state")) as [json_state |];
    [| destruct (onHandDataCallback this); reflexivity].
  destruct (Get json (utf16 "x")) as [json_x |];
    [| destruct (onHandDataCallback this); reflexivity].
  destruct (Get json (utf16 "y")) as [json_y |];
    [| destruct (onHandDataCallback this); reflexivity].
  destruct (ToBoolean json_state && typeof_number json_x);
    destruct (onHandDataCallback this); reflexivity.
Qed.

(** At most one signal is published, and only from a text in which the
    pattern matches an object whose [state] is truthy and whose [x] is a
    number. *)
Lemma published_inv (text : jsstring) (d : HandData) :
  In d (published text) ->
  exists match0 json json_state json_x json_y,
    regex_match text = Some match0
    /\ JSON.parse match0 = Some json
    /\ Get json (utf16 "state") = Some json_state
    /\ Get json (utf16 "x") = Some json_x
    /\ Get json (utf16 "y") = Some json_y
    /\ ToBoolean json_state = true
    /\ typeof_number json_x = true
    /\ published text = [d]
    /\ d = {| state := if strict_equals_string json_state (utf16 "OPEN")
                       then OPEN else CLOSED;
              x := max (Fin (-1)) (min (Fin 1) (ToNumber json_x));
              y := max (Fin (-1)) (min (Fin 1) (ToNumber json_y)) |}.
Proof.
  unfold published, tryParseJSON.
  cbn [onHandDataCallback setOnHandData].
  destruct (regex_match text) as [match0 |] eqn:Hm; [| intros []].
  destruct (JSON.parse match0) as [json |] eqn:Hj; [| intros []].
  destruct (Get json (utf16 "state")) as [json_state |] eqn:Hs; [| intros []].
  destruct (Get json (utf16 "x")) as [json_x |] eqn:Hx; [| intros []].
  destruct (Get json (utf16 "y")) as [json_y |] eqn:Hy; [| intros []].
  destruct (ToBoolean json_state) eqn:Hb; [| intros []].
  destruct (typeof_number json_x) eqn:Ht; [| intros []].
  cbn [andb recorder]. intros [<- | []].
  exists match0, json, json_state, json_x, json_y.
  repeat split; (assumption || reflexivity).
Qed.

Lemma clamp_spec (q : Q) : Qmax (-1) (Qmin 1 q) == clamp q.
Proof.
  unfold clamp.
  destruct (Qle_bool q (-1)) eqn:E1.
  - apply Qle_bool_iff in E1.
    rewrite (Q.min_r 1 q) by lra. apply Q.max_l. exact E1.
  - assert (H1 : -1 < q).
    { apply Qnot_le_lt. intros H. apply Qle_bool_iff in H. congruence. }
    destruct (Qle_bool 1 q) eqn:E2.
    + apply Qle_bool_iff in E2.
      rewrite (Q.min_l 1 q) by exact E2. apply Q.max_r. lra.
    + assert (H2 : q < 1).
      { apply Qnot_le_lt. intros H. apply Qle_bool_iff in H. congruence. }
      rewrite (Q.min_r 1 q) by lra. apply Q.max_r. lra.
Qed.

Lemma clamp_range (q : Q) : -1 <= clamp q <= 1.
Proof.
  unfold clamp.
  destruct (Qle_bool q (-1)) eqn:E1; [lra |].
  destruct (Qle_bool 1 q) eqn:E2; [lra |].
  split; apply Qlt_le_weak; apply Qnot_le_lt; intros H;
    apply Qle_bool_iff in H; congruence.
Qed.

(** *** The pattern *)

Lemma upto_last_brace_none (r : jsstring) :
  (forall c, In c r -> c <> 125%N) -> upto_last_brace r = None.
Proof.
  induction r as [| c r IH]; intros H; [reflexivity |].
  cbn [upto_last_brace]. rewrite IH by (intros d Hd; apply H; right; exact Hd).
  destruct (N.eqb_spec c 125) as [E | _]; [| reflexivity].
  exfalso. apply (H c); [left; reflexivity | exact E].
Qed.

Lemma upto_last_brace_app (l r : jsstring) :
  (forall c, In c r -> c <> 125%N) ->
  upto_last_brace (l ++ 125%N :: r) = Some (l ++ [125%N]).
Proof.
  intros H. induction l as [| c l IH]; cbn [app upto_last_brace].
  - rewrite (upto_last_brace_none r H). reflexivity.
  - rewrite IH. reflexivity.
Qed.

Lemma dot_star_app (l r : jsstring) :
  (forall c, In c l -> is_line_terminator c = false) ->
  dot_star (l ++ r) = l ++ dot_star r.
Proof.
  induction l as [| c l IH]; intros H; [reflexivity |].
  cbn [app dot_star]. rewrite (H c) by (left; reflexivity).
  rewrite IH by (intros d Hd; apply H; right; exact Hd). reflexivity.
Qed.

Lemma dot_star_incl (r : jsstring) (c : N) : In c (dot_star r) -> In c r.
Proof.
  induction r as [| d r IH]; cbn [dot_star]; [tauto |].
  destruct (is_line_terminator d); [intros [] |].
  intros [E | H]; [left; exact E | right; apply IH; exact H].
Qed.

(** An object that stands alone on its line is what the pattern matches:
    no opening brace before it, no line terminator inside it and no closing
    brace after it. *)
Lemma regex_match_isolated (pre body post : jsstring) :
  (forall c, In c pre -> c <> 123%N) ->
  (forall c, In c body -> is_line_terminator c = false) ->
  (forall c, In c post -> c <> 125%N) ->
  regex_match (pre ++ (123%N :: body ++ [125%N]) ++ post)
  = Some (123%N :: body ++ [125%N]).
Proof.
  intros Hpre Hbody Hpost. induction pre as [| c pre IH].
  - cbn [app regex_match N.eqb Pos.eqb]. rewrite <- app_assoc. cbn [app].
    rewrite (dot_star_app body (125%N :: post) Hbody).
    cbn [dot_star is_line_terminator N.eqb Pos.eqb orb].
    rewrite upto_last_brace_app; [reflexivity |].
    intros d Hd. apply Hpost. apply dot_star_incl. exact Hd.
  - cbn [app regex_match].
    destruct (N.eqb_spec c 123) as [E | _].
    + exfalso. apply (Hpre c); [left; reflexivity | exact E].
    + apply IH. intros d Hd. apply Hpre. right. exact Hd.
Qed.

(** What the pattern matches is a part of the text that starts with an
    opening brace and ends with a closing brace. *)
Lemma upto_last_brace_sound (run m : jsstring) :
  upto_last_brace run = Some m ->
  exists body post, m = body ++ [125%N] /\ run = m ++ post.
Proof.
  revert m. induction run as [| c run IH]; intros m; cbn [upto_last_brace];
    [discriminate |].
  destruct (upto_last_brace run) as [m' |].
  - intros E. injection E as <-.
    destruct (IH m' eq_refl) as [body [post [-> ->]]].
    exists (c :: body), post. split; reflexivity.
  - destruct (N.eqb_spec c 125) as [-> | _]; [| discriminate].
    intros E. injection E as <-. exists [], run. split; reflexivity.
Qed.

Lemma dot_star_prefix (s : jsstring) : exists rest, s = dot_star s ++ rest.
Proof.
  induction s as [| c s [rest IH]]; [exists []; reflexivity |].
  cbn [dot_star]. destruct (is_line_terminator c).
  - exists (c :: s). reflexivity.
  - exists rest. cbn [app]. rewrite <- IH. reflexivity.
Qed.

Lemma regex_match_sound (text m : jsstring) :
  regex_match text = Some m ->
  contains text m /\ exists body, m = 123%N :: body ++ [125%N].
Proof.
  induction text as [| c text IH]; cbn [regex_match]; [discriminate |].
  assert (Hskip : regex_match text = Some m ->
                  contains (c :: text) m
                  /\ exists body, m = 123%N :: body ++ [125%N]).
  { intros H. destruct (IH H) as [[pre [post ->]] Hb].
    split; [exists (c :: pre), post; reflexivity | exact Hb]. }
  destruct (N.eqb_spec c 123) as [-> | _]; [| exact Hskip].
  destruct (upto_last_brace (dot_star text)) as [m' |] eqn:E; [| exact Hskip].
  intros H. injection H as <-.
  destruct (upto_last_brace_sound _ _ E) as [body [post [-> Hrun]]].
  destruct (dot_star_prefix text) as [rest Hrest].
  split; [| exists body; reflexivity].
  exists [], (post ++ rest). cbn [app]. f_equal.
  rewrite Hrest at 1. rewrite Hrun. rewrite <- app_assoc. reflexivity.
Qed.

(** ** C2: a valid payload is published once, clamped *)

(** C2 (as amended). Let the part of the text from its first opening brace
    to the last closing brace of that line (what the pattern matches) parse
    as a JSON object whose [state] is the string OPEN or CLOSED and whose
    [x] and [y] are numbers.  Then exactly one signal is published: its
    state is the enumerated value of that name, its [x] and [y] are the
    numbers clamped to [[-1,1]], and a service with a registered observer
    calls the observer once, on that signal. *)
Theorem C2_valid_payload_published_once_clamped :
  forall (text match0 : jsstring) (members : list (jsstring * JSON.value))
         (s : jsstring) (qx qy : Q),
    regex_match text = Some match0 ->
    JSON.parse match0 = Some (JSON.JObject members) ->
    lookup (utf16 "state") members = Some (JSON.JString s) ->
    s = utf16 "OPEN" \/ s = utf16 "CLOSED" ->
    lookup (utf16 "x") members = Some (JSON.JNumber qx) ->
    lookup (utf16 "y") members = Some (JSON.JNumber qy) ->
    exists (d : HandData) (cx cy : Q),
      published text = [d]
      /\ (s = utf16 "OPEN" -> state d = OPEN)
      /\ (s = utf16 "CLOSED" -> state d = CLOSED)
      /\ x d = Fin cx /\ cx == clamp qx /\ -1 <= cx <= 1
      /\ y d = Fin cy /\ cy == clamp qy /\ -1 <= cy <= 1
      /\ (forall (W : Type) (this : GeminiLiveService W)
                 (callback : HandData -> W -> W) (w : W),
             onHandDataCallback this = Some callback ->
             tryParseJSON this text w = callback d w).
Proof.
  intros text match0 members s qx qy Hm Hj Hs Hv Hx Hy.
  assert (Hpub : published text
                 = [ {| state := if jsstring_eqb s (utf16 "OPEN")
                                 then OPEN else CLOSED;
                        x := Fin (Qmax (-1) (Qmin 1 qx));
                        y := Fin (Qmax (-1) (Qmin 1 qy)) |} ]).
  { unfold published, tryParseJSON. rewrite Hm, Hj.
    cbn [Get]. rewrite Hs, Hx, Hy.
    cbn [ToBoolean typeof_number strict_equals_string ToNumber ToNumber_value
         onHandDataCallback setOnHandData].
    destruct Hv as [-> | ->]; reflexivity. }
  eexists. exists (Qmax (-1) (Qmin 1 qx)), (Qmax (-1) (Qmin 1 qy)).
  split; [exact Hpub |]. cbn [state x y].
  split; [intros ->; reflexivity |].
  split; [intros ->; reflexivity |].
  split; [reflexivity |]. split; [apply clamp_spec |].
  split; [rewrite clamp_spec; apply clamp_range |].
  split; [reflexivity |]. split; [apply clamp_spec |].
  split; [rewrite clamp_spec; apply clamp_range |].
  intros W this callback w Hcb.
  rewrite tryParseJSON_calls, Hcb, Hpub. reflexivity.
Qed.

(** The inference fragment of the specification: [x = 2.5] becomes 1 and
    [y = -3] becomes -1. *)
Lemma C2_witness :
  exists (d : HandData) (cx cy : Q),
    published (quoted "here is the data {'state':'OPEN','x':2.5,'y':-3}")
    = [d]
    /\ (utf16 "OPEN" = utf16 "OPEN" -> state d = OPEN)
    /\ (utf16 "OPEN" = utf16 "CLOSED" -> state d = CLOSED)
    /\ x d = Fin cx /\ cx == clamp (25 # 10) /\ -1 <= cx <= 1
    /\ y d = Fin cy /\ cy == clamp (- (3 # 1)) /\ -1 <= cy <= 1
    /\ (forall (W : Type) (this : GeminiLiveService W)
               (callback : HandData -> W -> W) (w : W),
           onHandDataCallback this = Some callback ->
           tryParseJSON this
             (quoted "here is the data {'state':'OPEN','x':2.5,'y':-3}") w
           = callback d w).
Proof.
  apply (C2_valid_payload_published_once_clamped
           (quoted "here is the data {'state':'OPEN','x':2.5,'y':-3}")
           (quoted "{'state':'OPEN','x':2.5,'y':-3}")
           [(utf16 "state", JSON.JString (utf16 "OPEN"));
            (utf16 "x", JSON.JNumber (25 # 10));
            (utf16 "y", JSON.JNumber (- (3 # 1)))]
           (utf16 "OPEN") (25 # 10) (- (3 # 1))).
  - reflexivity.
  - reflexivity.
  - reflexivity.
  - left. reflexivity.
  - reflexivity.
  - reflexivity.
Defined.

Example C2_spec_example :
  published (quoted "here is the data {'state':'OPEN','x':2.5,'y':-3}")
  = [ {| state := OPEN; x := Fin 1; y := Fin (-1) |} ].
Proof. reflexivity. Qed.

(** C2 fails as stated: a fragment with two valid objects on one line
    contains a valid object, but the pattern matches from the first opening
    brace to the last closing brace, which is not JSON, and nothing is
    published; so is a valid object preceded by a stray opening brace, or
    spread over two lines.  And a service without observer publishes
    nothing from a valid fragment. *)
Lemma C2_counterexample :
  JSON.parse valid_object = Some (JSON.JObject valid_members)
  /\ (contains (valid_object ++ utf16 " " ++ valid_object) valid_object
      /\ published (valid_object ++ utf16 " " ++ valid_object) = [])
  /\ (contains (utf16 "{ " ++ valid_object) valid_object
      /\ published (utf16 "{ " ++ valid_object) = [])
  /\ (JSON.parse two_line_object = Some (JSON.JObject valid_members)
      /\ published two_line_object = [])
  /\ tryParseJSON (W := list HandData) new_GeminiLiveService valid_object []
     = [].
Proof.
  split; [reflexivity |]. split; [split; [| reflexivity] |].
  { exists [], (utf16 " " ++ valid_object). reflexivity. }
  split; [split; [| reflexivity] |].
  { exists (utf16 "{ "), []. rewrite app_nil_r. reflexivity. }
  split; [split; reflexivity | reflexivity].
Qed.

(** ** C3: what is discarded *)

(** The fragments that are discarded: no match of the pattern, a match that
    is not JSON, or an object without a truthy [state] or a numeric [x].
    Nothing is published and the observer state is unchanged (no exception
    leaves [tryParseJSON]: it is a total function of its arguments). *)
Lemma tryParseJSON_discards (text : jsstring) :
  (regex_match text = None
   \/ (exists match0,
          regex_match text = Some match0
          /\ (JSON.parse match0 = None
              \/ exists members,
                   JSON.parse match0 = Some (JSON.JObject members)
                   /\ (lookup (utf16 "state") members = None
                       \/ lookup (utf16 "x") members = None)))) ->
  published text = []
  /\ forall (W : Type) (this : GeminiLiveService W) (w : W),
       tryParseJSON this text w = w.
Proof.
  intros H.
  assert (Hpub : published text = []).
  { unfold published, tryParseJSON.
    destruct H as [-> | [match0 [-> [-> | [members [-> [Hn | Hn]]]]]]];
      try reflexivity; cbn [Get]; rewrite Hn; try reflexivity.
    destruct (ToBoolean (lookup (utf16 "state") members)); reflexivity. }
  split; [exact Hpub |].
  intros W this w. rewrite tryParseJSON_calls, Hpub.
  destruct (onHandDataCallback this); reflexivity.
Qed.

(** C3, at the input where the code departs from it: an object with [state]
    and [x] but without [y] is not discarded; a signal is published whose
    [y] is NaN. *)
Theorem C3_fragment_without_y_is_published :
  exists d : HandData,
    published (quoted "{'state':'OPEN','x':0.5}") = [d]
    /\ state d = OPEN
    /\ x d =~ Fin (1 # 2)
    /\ y d = NaN.
Proof.
  eexists. split; [reflexivity |]. cbn [state x y].
  split; [reflexivity |]. split; [closed_Q | reflexivity].
Qed.

(** The example of the specification (no [x]) is discarded. *)
Example C3_spec_example : published (quoted "{'state':'OPEN'}") = [].
Proof. reflexivity. Qed.

(** ** C10: the published states *)

(** C10. Every signal that the parser publishes has the state OPEN or
    CLOSED, never UNKNOWN: it is OPEN exactly when the parsed [state] is
    the string OPEN, and every other parsed state string (UNKNOWN among
    them) gives CLOSED. *)
Theorem C10_published_state_is_OPEN_or_CLOSED :
  forall (text : jsstring) (d : HandData),
    In d (published text) ->
    (state d = OPEN \/ state d = CLOSED)
    /\ state d <> UNKNOWN
    /\ (forall (match0 s : jsstring) (json : JSON.value),
           regex_match text = Some match0 ->
           JSON.parse match0 = Some json ->
           Get json (utf16 "state") = Some (Some (JSON.JString s)) ->
           (s = utf16 "OPEN" -> state d = OPEN)
           /\ (s <> utf16 "OPEN" -> state d = CLOSED)).
Proof.
  intros text d Hd.
  destruct (published_inv text d Hd)
    as [match0 [json [js [jx [jy [Hm [Hj [Hs [_ [_ [_ [_ [_ ->]]]]]]]]]]]]].
  cbn [state]. split; [| split].
  - destruct (strict_equals_string js (utf16 "OPEN")); [left | right]; reflexivity.
  - destruct (strict_equals_string js (utf16 "OPEN")); discriminate.
  - intros match1 s json1 Hm1 Hj1 Hs1.
    rewrite Hm in Hm1. injection Hm1 as <-.
    rewrite Hj in Hj1. injection Hj1 as <-.
    rewrite Hs in Hs1. injection Hs1 as ->.
    cbn [strict_equals_string]. split.
    + intros ->. reflexivity.
    + intros Hne. destruct (jsstring_eqb s (utf16 "OPEN")) eqn:E; [| reflexivity].
      apply jsstring_eqb_eq in E. contradiction.
Qed.

Lemma C10_witness :
  In unknown_signal (published unknown_text)
  /\ (state unknown_signal = OPEN \/ state unknown_signal = CLOSED)
  /\ state unknown_signal <> UNKNOWN
  /\ (forall (match0 s : jsstring) (json : JSON.value),
         regex_match unknown_text = Some match0 ->
         JSON.parse match0 = Some json ->
         Get json (utf16 "state") = Some (Some (JSON.JString s)) ->
         (s = utf16 "OPEN" -> state unknown_signal = OPEN)
         /\ (s <> utf16 "OPEN" -> state unknown_signal = CLOSED)).
Proof.
  assert (Hd : In unknown_signal (published unknown_text))
    by (left; reflexivity).
  split; [exact Hd |].
  exact (C10_published_state_is_OPEN_or_CLOSED unknown_text unknown_signal Hd).
Defined.

(** ** C9: a tick without session *)



(** Once the session is established the same tick submits the frame and
    the text prompt, and a frame captured while the promise was pending is
    submitted when the promise is fulfilled. *)
Example tick_with_session_submits :
  realtimeInput
    (snd (timer_task true 640 "frame2"
            (settle true
               (timer_task true 640 "frame1"
                  (connect App_service, idle_host)))))
  = [ {| data := "frame1"; mimeType := "image/jpeg" |};
      {| data := "QW5hbHl6ZSBoYW5k"; mimeType := "text/plain" |};
      {| data := "frame2"; mimeType := "image/jpeg" |};
      {| data := "QW5hbHl6ZSBoYW5k"; mimeType := "text/plain" |} ].
Proof. reflexivity. Qed.

(* ===================================================================== *)
(** * Further properties *)
(* ===================================================================== *)

(** ** The pattern of the parser *)

Lemma upto_last_brace_some_iff (run : jsstring) :
  upto_last_brace run <> None <-> In 125%N run.
Proof.
  induction run as [| c run IH]; cbn [upto_last_brace In].
  - split; [intros H; contradiction H; reflexivity | intros []].
  - destruct (upto_last_brace run) as [m |].
    + split; [intros _ | discriminate]. right. apply IH. discriminate.
    + destruct (N.eqb_spec c 125) as [-> | Hne].
      * split; [intros _; left; reflexivity | discriminate].
      * split; [intros H; contradiction H; reflexivity |].
        intros [E | H]; [congruence |]. apply IH in H. contradiction H.
        reflexivity.
Qed.

Lemma in_dot_star_iff (s : jsstring) :
  In 125%N (dot_star s) <-> closes_on_line s.
Proof.
  induction s as [| c s IH]; cbn [dot_star].
  - split; [intros [] |]. intros [body [rest [E _]]].
    destruct body; discriminate E.
  - destruct (is_line_terminator c) eqn:Ec.
    + split; [intros [] |]. intros [body [rest [E Hb]]].
      destruct body as [| b body]; cbn in E; injection E as E1 _.
      * subst c. vm_compute in Ec. discriminate Ec.
      * subst b. rewrite (Hb c) in Ec by (left; reflexivity). discriminate Ec.
    + split.
      * intros [E | H].
        -- subst c. exists [], s. split; [reflexivity | intros ? []].
        -- apply IH in H. destruct H as [body [rest [-> Hb]]].
           exists (c :: body), rest. split; [reflexivity |].
           intros d [<- | Hd]; [exact Ec | apply Hb; exact Hd].
      * intros [body [rest [E Hb]]].
        destruct body as [| b body]; cbn in E; injection E as -> E.
        -- left. reflexivity.
        -- right. apply IH. exists body, rest. split; [exact E |].
           intros d Hd. apply Hb. right. exact Hd.
Qed.

Lemma dot_star_no_terminator (s : jsstring) (c : N) :
  In c (dot_star s) -> is_line_terminator c = false.
Proof.
  induction s as [| d s IH]; cbn [dot_star]; [intros [] |].
  destruct (is_line_terminator d) eqn:Ed; [intros [] |].
  intros [<- | H]; [exact Ed | apply IH; exact H].
Qed.

(** What backtracking keeps is everything up to the last closing brace:
    none follows in the rest of the run. *)
Lemma upto_last_brace_greedy (run m : jsstring) :
  upto_last_brace run = Some m ->
  exists body post,
    m = body ++ [125%N] /\ run = m ++ post /\ ~ In 125%N post.
Proof.
  revert m. induction run as [| c run IH]; intros m; cbn [upto_last_brace];
    [discriminate |].
  destruct (upto_last_brace run) as [m' |] eqn:E.
  - intros H. injection H as <-.
    destruct (IH m' eq_refl) as [body [post [-> [-> Hpost]]]].
    exists (c :: body), post.
    split; [reflexivity |]. split; [reflexivity | exact Hpost].
  - destruct (N.eqb_spec c 125) as [-> | _]; [| discriminate].
    intros H. injection H as <-. exists [], run.
    split; [reflexivity |]. split; [reflexivity |]. intros Hin.
    apply upto_last_brace_some_iff in Hin. contradiction.
Qed.

(** X1. What [text.match] returns for the pattern: a contiguous part of the
    text that starts at the first opening brace which has a closing brace
    after it on the same line, and ends at the last closing brace of that
    line; it holds no line terminator. *)
Theorem regex_match_leftmost_greedy_single_line :
  forall text m : jsstring,
    regex_match text = Some m ->
    exists pre body post,
      text = pre ++ m ++ post
      /\ m = 123%N :: body ++ [125%N]
      /\ (forall c, In c m -> is_line_terminator c = false)
      /\ ~ closes_on_line post
      /\ (forall pre1 pre2,
             pre = pre1 ++ 123%N :: pre2 ->
             ~ closes_on_line (pre2 ++ m ++ post)).
Proof.
  intros text. induction text as [| c text IH]; intros m; cbn [regex_match];
    [discriminate |].
  assert (Hskip : regex_match text = Some m ->
                  (c <> 123%N \/ ~ closes_on_line text) ->
                  exists pre body post,
                    c :: text = pre ++ m ++ post
                    /\ m = 123%N :: body ++ [125%N]
                    /\ (forall d, In d m -> is_line_terminator d = false)
                    /\ ~ closes_on_line post
                    /\ (forall pre1 pre2,
                           pre = pre1 ++ 123%N :: pre2 ->
                           ~ closes_on_line (pre2 ++ m ++ post))).
  { intros H Hc.
    destruct (IH m H) as [pre [body [post [-> [Hm [Hlt [Hpost Hleft]]]]]]].
    exists (c :: pre), body, post.
    split; [reflexivity |]. split; [exact Hm |]. split; [exact Hlt |].
    split; [exact Hpost |].
    intros [| d pre1] pre2 E; cbn in E; injection E as E1 E2.
    - subst pre2. destruct Hc as [Hc | Hc]; [congruence | exact Hc].
    - apply (Hleft pre1 pre2). exact E2. }
  destruct (N.eqb_spec c 123) as [-> | Hne];
    [| intros H; apply Hskip; [exact H | left; exact Hne]].
  destruct (upto_last_brace (dot_star text)) as [m' |] eqn:E.
  - intros H. injection H as <-.
    destruct (upto_last_brace_greedy _ _ E) as [body [post [-> [Hrun Hpost]]]].
    destruct (dot_star_prefix text) as [rest Hrest].
    exists [], body, (post ++ rest).
    split.
    { cbn [app]. f_equal. rewrite Hrest at 1. rewrite Hrun.
      rewrite <- !app_assoc. reflexivity. }
    split; [reflexivity |]. split.
    { intros d [<- | Hd]; [reflexivity |].
      apply (dot_star_no_terminator text). rewrite Hrun.
      apply in_or_app. left. exact Hd. }
    split.
    { intros Hcl. apply in_dot_star_iff in Hcl.
      (* the line of [post ++ rest] is within [post] *)
      assert (Hd : dot_star text = dot_star ((body ++ [125%N]) ++ post ++ rest)).
      { rewrite Hrest at 1. rewrite Hrun. rewrite app_assoc. reflexivity. }
      rewrite dot_star_app in Hd.
      2:{ intros d Hd'. apply (dot_star_no_terminator text). rewrite Hrun.
          apply in_or_app. left. exact Hd'. }
      rewrite Hrun in Hd. apply app_inv_head in Hd.
      apply Hpost. rewrite Hd. exact Hcl. }
    intros pre1 pre2 Epre. destruct pre1; discriminate Epre.
  - intros H. apply Hskip; [exact H |]. right.
    intros Hcl. apply in_dot_star_iff in Hcl.
    apply upto_last_brace_some_iff in Hcl. contradiction.
Qed.

Lemma regex_match_first_witness :
  exists pre body post,
    quoted "a{b}c}d{e" = pre ++ quoted "{b}c}" ++ post
    /\ quoted "{b}c}" = 123%N :: body ++ [125%N]
    /\ (forall c, In c (quoted "{b}c}") -> is_line_terminator c = false)
    /\ ~ closes_on_line post
    /\ (forall pre1 pre2,
           pre = pre1 ++ 123%N :: pre2 ->
           ~ closes_on_line (pre2 ++ quoted "{b}c}" ++ post)).
Proof.
  apply (regex_match_leftmost_greedy_single_line
           (quoted "a{b}c}d{e") (quoted "{b}c}")).
  reflexivity.
Defined.

(** X2. The pattern fails exactly on the texts in which no opening brace is
    followed by a closing brace on the same line. *)
Theorem regex_match_none_iff :
  forall text : jsstring,
    regex_match text = None
    <-> (forall pre s, text = pre ++ 123%N :: s -> ~ closes_on_line s).
Proof.
  intros text. induction text as [| c text IH]; cbn [regex_match].
  - split; [| reflexivity]. intros _ pre s E. destruct pre; discriminate E.
  - destruct (N.eqb_spec c 123) as [-> | Hne].
    + destruct (upto_last_brace (dot_star text)) as [m |] eqn:E.
      * split; [discriminate |]. intros H. exfalso.
        apply (H [] text eq_refl). apply in_dot_star_iff.
        apply upto_last_brace_some_iff. rewrite E. discriminate.
      * rewrite IH. split.
        -- intros H [| d pre] s Es; cbn in Es.
           ++ injection Es as Es. subst s. intros Hcl.
              apply in_dot_star_iff in Hcl.
              apply upto_last_brace_some_iff in Hcl. contradiction.
           ++ injection Es as _ E2. apply (H pre s E2).
        -- intros H pre s Es. apply (H (123%N :: pre) s). rewrite Es.
           reflexivity.
    + rewrite IH. split.
      * intros H [| d pre] s Es; cbn in Es; injection Es as E1 E2.
        -- congruence.
        -- apply (H pre s E2).
      * intros H pre s Es. apply (H (c :: pre) s). rewrite Es. reflexivity.
Qed.

(** ** What the parser publishes *)

Lemma clamp_number_range (v : number) :
  max (Fin (-1)) (min (Fin 1) v) = NaN
  \/ in_range (-1) 1 (max (Fin (-1)) (min (Fin 1) v)).
Proof.
  destruct v as [q | | |]; cbn [min max in_range].
  - right. rewrite clamp_spec. apply clamp_range.
  - right. rewrite (clamp_spec 1). apply clamp_range.
  - right. lra.
  - left. reflexivity.
Qed.

(** X3. Every published signal has a rational [x] in [[-1,1]]; its [y] is a
    rational in [[-1,1]] or NaN, and it is NaN exactly when the [y] of the
    parsed object does not convert to a number. *)
Theorem published_signal_ranges :
  forall (text : jsstring) (d : HandData),
    In d (published text) ->
    in_range (-1) 1 (x d)
    /\ (y d = NaN \/ in_range (-1) 1 (y d))
    /\ (forall match0 json json_y,
           regex_match text = Some match0 ->
           JSON.parse match0 = Some json ->
           Get json (utf16 "y") = Some json_y ->
           (y d = NaN <-> ToNumber json_y = NaN)).
Proof.
  intros text d Hd.
  destruct (published_inv text d Hd)
    as [match0 [json [js [jx [jy [Hm [Hj [Hs [Hx [Hy [_ [Ht [_ ->]]]]]]]]]]]]].
  cbn [x y]. split; [| split].
  - destruct jx as [[| | q | | |] |]; try discriminate Ht.
    cbn [ToNumber ToNumber_value min max in_range].
    rewrite clamp_spec. apply clamp_range.
  - apply clamp_number_range.
  - intros match1 json1 jy1 Hm1 Hj1 Hy1.
    rewrite Hm in Hm1. injection Hm1 as <-.
    rewrite Hj in Hj1. injection Hj1 as <-.
    rewrite Hy in Hy1. injection Hy1 as <-.
    destruct (ToNumber jy) as [q | | |]; cbn [min max];
      split; intros H; (discriminate H || reflexivity).
Qed.

Lemma published_signal_ranges_witness :
  in_range (-1) 1 (x unknown_signal)
  /\ (y unknown_signal = NaN \/ in_range (-1) 1 (y unknown_signal))
  /\ (forall match0 json json_y,
         regex_match unknown_text = Some match0 ->
         JSON.parse match0 = Some json ->
         Get json (utf16 "y") = Some json_y ->
         (y unknown_signal = NaN <-> ToNumber json_y = NaN)).
Proof.
  apply (published_signal_ranges unknown_text unknown_signal).
  left. reflexivity.
Defined.

(** X4. A fragment is published exactly when the pattern matches, the match
    is JSON, its [state] is truthy and its [x] has type number: a [state]
    that is absent, null, false, 0 or the empty string, and an [x] that is
    absent or not a number (a numeric string included), discard the
    fragment, whatever [y] is. *)
Theorem published_iff_truthy_state_and_numeric_x :
  forall text : jsstring,
    published text <> []
    <-> exists match0 json json_state json_x,
          regex_match text = Some match0
          /\ JSON.parse match0 = Some json
          /\ Get json (utf16 "state") = Some json_state
          /\ ToBoolean json_state = true
          /\ Get json (utf16 "x") = Some json_x
          /\ typeof_number json_x = true.
Proof.
  intros text. split.
  - intros Hne. destruct (published text) as [| d l] eqn:E;
      [contradiction Hne; reflexivity |].
    assert (Hd : In d (published text)) by (rewrite E; left; reflexivity).
    destruct (published_inv text d Hd)
      as [match0 [json [js [jx [jy [Hm [Hj [Hs [Hx [_ [Hb [Ht _]]]]]]]]]]]].
    exists match0, json, js, jx. repeat split; assumption.
  - intros [match0 [json [js [jx [Hm [Hj [Hs [Hb [Hx Ht]]]]]]]]].
    unfold published, tryParseJSON. rewrite Hm, Hj, Hs, Hx.
    assert (Hy : exists jy, Get json (utf16 "y") = Some jy).
    { destruct json; try discriminate Hs; eexists; reflexivity. }
    destruct Hy as [jy ->]. rewrite Hb, Ht.
    cbn [andb onHandDataCallback setOnHandData recorder]. discriminate.
Qed.

(** Fragments of the discarded kinds, and one with a numeric string as [y],
    which is converted. *)
Example discarded_and_converted_fragments :
  published (quoted "{'state':'','x':0,'y':0}") = []
  /\ published (quoted "{'state':0,'x':0,'y':0}") = []
  /\ published (quoted "{'state':null,'x':0,'y':0}") = []
  /\ published (quoted "{'state':'OPEN','x':'0.5','y':0}") = []
  /\ published (quoted "{'state':'OPEN','x':0,'y':'0.5'}")
     = [ {| state := OPEN; x := Fin 0; y := Fin (5 # 10) |} ]
  /\ published (quoted "{'state':{},'x':0,'y':null}")
     = [ {| state := CLOSED; x := Fin 0; y := Fin 0 |} ].
Proof. repeat split; reflexivity. Qed.

(** ** handleMessage *)

Lemma published_at_most_one (text : jsstring) :
  (List.length (published text) <= 1)%nat.
Proof.
  destruct (published text) as [| d l] eqn:E; [cbn; lia |].
  assert (Hd : In d (published text)) by (rewrite E; left; reflexivity).
  destruct (published_inv text d Hd)
    as [_ [_ [_ [_ [_ [_ [_ [_ [_ [_ [_ [_ [H _]]]]]]]]]]]]].
  rewrite E in H. rewrite H. cbn. lia.
Qed.

Lemma flat_map_published_length (ts : list jsstring) :
  (List.length (flat_map published ts) <= List.length ts)%nat.
Proof.
  induction ts as [| t ts IH]; [cbn; lia |].
  cbn [flat_map List.length]. rewrite length_app.
  pose proof (published_at_most_one t). lia.
Qed.

Lemma handleMessage_fold {W : Type} (this : GeminiLiveService W)
    (ps : list Part) (w : W) :
  fold_left
    (fun w' part =>
       match text part with
       | Some ((_ :: _) as t) => tryParseJSON this t w'
       | _ => w'
       end) ps w
  = match onHandDataCallback this with
    | Some callback =>
        fold_right callback w
          (flat_map published
             (rev (flat_map (fun part => match text part with
                                         | Some (c :: t) => [c :: t]
                                         | _ => []
                                         end) ps)))
    | None => w
    end.
Proof.
  revert w. induction ps as [| part ps IH]; intros w.
  - cbn. destruct (onHandDataCallback this); reflexivity.
  - cbn [fold_left flat_map]. rewrite IH.
    destruct (onHandDataCallback this) as [callback |] eqn:Ecb.
    + destruct (text part) as [[| c t] |].
      * reflexivity.
      * cbn [app rev]. rewrite flat_map_app, fold_right_app.
        cbn [flat_map]. rewrite app_nil_r.
        rewrite tryParseJSON_calls, Ecb. reflexivity.
      * reflexivity.
    + destruct (text part) as [[| c t] |]; try reflexivity.
      rewrite tryParseJSON_calls, Ecb. reflexivity.
Qed.

(** X5. [handleMessage] runs the parser on the non-empty texts of the
    message's parts, in order: the observer is called once per published
    fragment, in the order of the parts; a message without content, model
    turn or parts, a service without observer, and parts without text
    publish nothing; and in [App], whose observer replaces the signal, what
    remains after a message is the signal of the last published fragment,
    or the previous signal when nothing was published. *)
Theorem handleMessage_publishes_parts_in_order :
  forall message : LiveServerMessage,
    message_published message
    = flat_map published (rev (parsed_texts message))
    /\ (List.length (message_published message)
        <= List.length (parsed_texts message)
        <= List.length (message_parts message))%nat
    /\ (forall (W : Type) (this : GeminiLiveService W) (w : W),
           handleMessage this message w
           = match onHandDataCallback this with
             | Some callback => fold_right callback w (message_published message)
             | None => w
             end)
    /\ (forall previous : HandData,
           handleMessage App_service message previous
           = match message_published message with
             | latest :: _ => latest
             | [] => previous
             end).
Proof.
  intros message.
  assert (Hpub : message_published message
                 = flat_map published (rev (parsed_texts message))).
  { unfold message_published, handleMessage. rewrite handleMessage_fold.
    cbn [onHandDataCallback setOnHandData]. unfold parsed_texts.
    induction (flat_map published _) as [| d l IH]; [reflexivity |].
    cbn [fold_right recorder]. rewrite IH. reflexivity. }
  assert (Hgen : forall (W : Type) (this : GeminiLiveService W) (w : W),
             handleMessage this message w
             = match onHandDataCallback this with
               | Some callback =>
                   fold_right callback w (message_published message)
               | None => w
               end).
  { intros W this w. rewrite Hpub. unfold handleMessage.
    rewrite handleMessage_fold. reflexivity. }
  split; [exact Hpub |]. split; [| split; [exact Hgen |]].
  - split.
    + rewrite Hpub, <- (length_rev (parsed_texts message)).
      apply flat_map_published_length.
    + unfold parsed_texts. clear Hpub Hgen.
      induction (message_parts message) as [| part ps IH]; [cbn; lia |].
      cbn [flat_map List.length]. rewrite length_app.
      destruct (text part) as [[| c t] |]; cbn [List.length Nat.add];
        [apply Nat.le_le_succ_r | apply le_n_S | apply Nat.le_le_succ_r];
        exact IH.
  - intros previous. rewrite Hgen.
    cbn [onHandDataCallback App_service setOnHandData].
    destruct (message_published message); reflexivity.
Qed.

(** A message of three parts: a valid fragment, a part without text and a
    fragment with the state UNKNOWN. *)
Example two_part_message_published :
  message_published two_part_message
  = [ unknown_signal; {| state := OPEN; x := Fin 0; y := Fin 0 |} ]
  /\ handleMessage App_service two_part_message App_initial_handData
     = unknown_signal.
Proof. split; reflexivity. Qed.

(** ** The capture timer *)

Lemma run_microtasks_sends (frames : list string) (inputs : list Media)
    (u : nat) :
  run_microtasks
    {| jobs := List.map SendFrame frames; realtimeInput := inputs;
       unhandledRejections := u |}
  = {| jobs := []; realtimeInput := inputs ++ flat_map submission frames;
       unhandledRejections := u |}.
Proof.
  unfold run_microtasks. cbn [jobs realtimeInput unhandledRejections].
  revert inputs. induction frames as [| b frames IH]; intros inputs.
  - cbn. rewrite app_nil_r. reflexivity.
  - cbn [List.map fold_left run_job jobs realtimeInput unhandledRejections].
    rewrite IH. cbn [flat_map]. unfold submission at 2.
    rewrite <- app_assoc. reflexivity.
Qed.

Lemma run_microtasks_rejects {A : Type} (frames : list A)
    (inputs : list Media) (u : nat) :
  run_microtasks
    {| jobs := List.map (fun _ => RejectDerived) frames;
       realtimeInput := inputs; unhandledRejections := u |}
  = {| jobs := []; realtimeInput := inputs;
       unhandledRejections := u + List.length frames |}.
Proof.
  unfold run_microtasks. cbn [jobs realtimeInput unhandledRejections].
  revert u. induction frames as [| b frames IH]; intros u.
  - cbn. rewrite Nat.add_0_r. reflexivity.
  - cbn [List.map fold_left run_job jobs realtimeInput unhandledRejections
         List.length].
    rewrite IH. rewrite Nat.add_succ_comm. reflexivity.
Qed.

(** X6. With the session established, a tick submits exactly when the
    canvas has a 2d context and the video has a width: it then sends the
    captured frame as image/jpeg followed by the text prompt, and otherwise
    nothing; over a sequence of ticks every frame is sent, in the order of
    capture. *)
Theorem established_ticks_submit_every_frame_in_order :
  forall (W : Type) (this : GeminiLiveService W) (h : Host),
    sessionPromise this = Some Fulfilled ->
    jobs h = [] ->
    (forall (b : string) (ctx : bool) (videoWidth : N),
        snd (timer_task ctx videoWidth b (this, h))
        = {| jobs := [];
             realtimeInput :=
               realtimeInput h
               ++ (if ctx && negb (videoWidth =? 0)%N
                   then submission b else []);
             unhandledRejections := unhandledRejections h |})
    /\ (forall (frames : list string) (videoWidth : N),
           videoWidth <> 0%N ->
           snd (timer_tasks videoWidth frames (this, h))
           = {| jobs := [];
                realtimeInput :=
                  realtimeInput h ++ flat_map submission frames;
                unhandledRejections := unhandledRejections h |}
           /\ sessionPromise (fst (timer_tasks videoWidth frames (this, h)))
              = Some Fulfilled).
Proof.
  intros W this h Hp Hj.
  assert (Hone : forall (this0 : GeminiLiveService W) (h0 : Host) b ctx vw,
             sessionPromise this0 = Some Fulfilled -> jobs h0 = [] ->
             snd (timer_task ctx vw b (this0, h0))
             = {| jobs := [];
                  realtimeInput :=
                    realtimeInput h0
                    ++ (if ctx && negb (vw =? 0)%N then submission b else []);
                  unhandledRejections := unhandledRejections h0 |}
             /\ sessionPromise (fst (timer_task ctx vw b (this0, h0)))
                = Some Fulfilled).
  { intros this0 h0 b ctx vw Hp0 Hj0. unfold timer_task, tick. rewrite Hp0.
    destruct h0 as [j r u]. cbn in Hj0. subst j.
    destruct ctx, (vw =? 0)%N; cbn; rewrite ?app_nil_r;
      (split; [reflexivity | assumption || reflexivity]). }
  split.
  - intros b ctx vw. apply Hone; assumption.
  - intros frames vw Hvw. unfold timer_tasks.
    revert this h Hp Hj. induction frames as [| b frames IH]; intros this h Hp Hj.
    + cbn. destruct h as [j r u]. cbn in Hj. subst j. rewrite app_nil_r.
      split; [reflexivity | exact Hp].
    + cbn [fold_left].
      destruct (Hone this h b true vw Hp Hj) as [Hh Hp'].
      destruct (timer_task true vw b (this, h)) as [this1 h1].
      cbn [fst snd] in Hh, Hp'.
      assert (Hj1 : jobs h1 = []) by (rewrite Hh; reflexivity).
      destruct (IH this1 h1 Hp' Hj1) as [E1 E2].
      split; [| exact E2]. rewrite E1, Hh.
      cbn [realtimeInput unhandledRejections flat_map andb].
      destruct (N.eqb_spec vw 0) as [E | _]; [contradiction |].
      cbn [negb]. rewrite <- app_assoc. reflexivity.
Qed.

Lemma established_ticks_witness :
  (forall (b : string) (ctx : bool) (videoWidth : N),
      snd (timer_task ctx videoWidth b
             (settle true (connect App_service, idle_host)))
      = {| jobs := [];
           realtimeInput :=
             realtimeInput (snd (settle true (connect App_service, idle_host)))
             ++ (if ctx && negb (videoWidth =? 0)%N
                 then submission b else []);
           unhandledRejections :=
             unhandledRejections
               (snd (settle true (connect App_service, idle_host))) |})
  /\ (forall (frames : list string) (videoWidth : N),
         videoWidth <> 0%N ->
         snd (timer_tasks videoWidth frames
                (settle true (connect App_service, idle_host)))
         = {| jobs := [];
              realtimeInput :=
                realtimeInput
                  (snd (settle true (connect App_service, idle_host)))
                ++ flat_map submission frames;
              unhandledRejections :=
                unhandledRejections
                  (snd (settle true (connect App_service, idle_host))) |}
         /\ sessionPromise
              (fst (timer_tasks videoWidth frames
                      (settle true (connect App_service, idle_host))))
            = Some Fulfilled).
Proof.
  apply (established_ticks_submit_every_frame_in_order HandData
           (fst (settle true (connect App_service, idle_host)))
           (snd (settle true (connect App_service, idle_host))));
    reflexivity.
Defined.

Lemma pending_ticks_queue {W : Type} (videoWidth : N) (frames : list string) :
  videoWidth <> 0%N ->
  forall (this : GeminiLiveService W) (h : Host) (reactions : list string),
    sessionPromise this = Some (Pending reactions) ->
    jobs h = [] ->
    snd (timer_tasks videoWidth frames (this, h)) = h
    /\ sessionPromise (fst (timer_tasks videoWidth frames (this, h)))
       = Some (Pending (reactions ++ frames))
    /\ onHandDataCallback (fst (timer_tasks videoWidth frames (this, h)))
       = onHandDataCallback this.
Proof.
  intros Hvw. unfold timer_tasks.
  induction frames as [| b frames IH]; intros this h reactions Hp Hj.
  - cbn. rewrite app_nil_r. repeat split; [exact Hp].
  - cbn [fold_left].
    assert (Hstep : timer_task true videoWidth b (this, h)
                    = ({| sessionPromise := Some (Pending (reactions ++ [b]));
                          onHandDataCallback := onHandDataCallback this;
                          videoInterval := videoInterval this |}, h)).
    { unfold timer_task, tick. rewrite Hp.
      destruct (N.eqb_spec videoWidth 0) as [E | _]; [contradiction |].
      cbn [negb orb then_]. unfold run_microtasks. rewrite Hj.
      destruct h as [j r u]. cbn in Hj. subst j. reflexivity. }
    rewrite Hstep.
    destruct (IH {| sessionPromise := Some (Pending (reactions ++ [b]));
                    onHandDataCallback := onHandDataCallback this;
                    videoInterval := videoInterval this |}
                h (reactions ++ [b]) eq_refl Hj) as [E1 [E2 E3]].
    split; [exact E1 |]. split; [| exact E3].
    rewrite E2, <- app_assoc. reflexivity.
Qed.

(** X7. Frames captured while the session promise is pending are not lost:
    nothing reaches the session before the promise settles, and when it is
    fulfilled every captured frame is submitted, in the order of capture,
    each followed by the text prompt.  When it is rejected instead, nothing
    is ever submitted and every captured frame leaves one unhandled
    rejection (the reaction has no rejection handler). *)
Theorem pending_frames_are_flushed_or_rejected_on_settle :
  forall (W : Type) (this : GeminiLiveService W) (h : Host)
         (reactions frames : list string) (videoWidth : N),
    sessionPromise this = Some (Pending reactions) ->
    jobs h = [] ->
    videoWidth <> 0%N ->
    let queued := timer_tasks videoWidth frames (this, h) in
    snd queued = h
    /\ sessionPromise (fst queued) = Some (Pending (reactions ++ frames))
    /\ (sessionPromise (fst (settle true queued)) = Some Fulfilled
        /\ snd (settle true queued)
           = {| jobs := [];
                realtimeInput :=
                  realtimeInput h ++ flat_map submission (reactions ++ frames);
                unhandledRejections := unhandledRejections h |})
    /\ (sessionPromise (fst (settle false queued)) = Some Rejected
        /\ snd (settle false queued)
           = {| jobs := [];
                realtimeInput := realtimeInput h;
                unhandledRejections :=
                  unhandledRejections h
                  + List.length (reactions ++ frames) |}).
Proof.
  intros W this h reactions frames videoWidth Hp Hj Hvw queued.
  destruct (pending_ticks_queue videoWidth frames Hvw this h reactions Hp Hj)
    as [E1 [E2 _]].
  fold queued in E1, E2.
  split; [exact E1 |]. split; [exact E2 |].
  destruct queued as [this1 h1]. cbn [fst snd] in E1, E2. subst h1.
  unfold settle. rewrite E2. cbn [fst snd sessionPromise]. rewrite Hj.
  cbn [app].
  split; (split; [reflexivity |]).
  - apply run_microtasks_sends.
  - apply run_microtasks_rejects.
Qed.

Lemma pending_frames_witness :
  snd (timer_tasks 640 ["f1"; "f2"]%string (connect App_service, idle_host))
  = idle_host
  /\ sessionPromise
       (fst (timer_tasks 640 ["f1"; "f2"]%string
               (connect App_service, idle_host)))
     = Some (Pending ([] ++ ["f1"; "f2"]%string))
  /\ (sessionPromise
        (fst (settle true
                (timer_tasks 640 ["f1"; "f2"]%string
                   (connect App_service, idle_host))))
      = Some Fulfilled
      /\ snd (settle true
                (timer_tasks 640 ["f1"; "f2"]%string
                   (connect App_service, idle_host)))
         = {| jobs := [];
              realtimeInput :=
                realtimeInput idle_host
                ++ flat_map submission ([] ++ ["f1"; "f2"]%string);
              unhandledRejections := unhandledRejections idle_host |})
  /\ (sessionPromise
        (fst (settle false
                (timer_tasks 640 ["f1"; "f2"]%string
                   (connect App_service, idle_host))))
      = Some Rejected
      /\ snd (settle false
                (timer_tasks 640 ["f1"; "f2"]%string
                   (connect App_service, idle_host)))
         = {| jobs := [];
              realtimeInput := realtimeInput idle_host;
              unhandledRejections :=
                unhandledRejections idle_host
                + List.length ([] ++ ["f1"; "f2"]%string) |}).
Proof.
  apply (pending_frames_are_flushed_or_rejected_on_settle HandData
           (connect App_service) idle_host [] ["f1"; "f2"]%string 640%N).
  - reflexivity.
  - reflexivity.
  - discriminate.
Defined.

(** X8. After the session promise was rejected the timer is not stopped:
    each tick that passes the guard still captures a frame, submits nothing
    and leaves one more unhandled rejection. *)
Theorem rejected_session_ticks_never_submit :
  forall (W : Type) (this : GeminiLiveService W) (h : Host)
         (frames : list string) (videoWidth : N),
    sessionPromise this = Some Rejected ->
    jobs h = [] ->
    videoWidth <> 0%N ->
    snd (timer_tasks videoWidth frames (this, h))
    = {| jobs := [];
         realtimeInput := realtimeInput h;
         unhandledRejections :=
           unhandledRejections h + List.length frames |}
    /\ sessionPromise (fst (timer_tasks videoWidth frames (this, h)))
       = Some Rejected.
Proof.
  intros W this h frames videoWidth Hp Hj Hvw. unfold timer_tasks.
  revert this h Hp Hj.
  induction frames as [| b frames IH]; intros this h Hp Hj.
  - cbn. destruct h as [j r u]. cbn in Hj. subst j.
    rewrite Nat.add_0_r. split; [reflexivity | exact Hp].
  - cbn [fold_left].
    assert (Hstep : timer_task true videoWidth b (this, h)
                    = ({| sessionPromise := Some Rejected;
                          onHandDataCallback := onHandDataCallback this;
                          videoInterval := videoInterval this |},
                       {| jobs := [];
                          realtimeInput := realtimeInput h;
                          unhandledRejections := S (unhandledRejections h) |})).
    { unfold timer_task, tick. rewrite Hp.
      destruct (N.eqb_spec videoWidth 0) as [E | _]; [contradiction |].
      cbn [negb orb then_]. unfold run_microtasks.
      cbn [jobs realtimeInput unhandledRejections]. rewrite Hj.
      reflexivity. }
    rewrite Hstep.
    destruct (IH {| sessionPromise := Some Rejected;
                    onHandDataCallback := onHandDataCallback this;
                    videoInterval := videoInterval this |}
                {| jobs := [];
                   realtimeInput := realtimeInput h;
                   unhandledRejections := S (unhandledRejections h) |}
                eq_refl eq_refl) as [E1 E2].
    split; [| exact E2]. rewrite E1.
    cbn [realtimeInput unhandledRejections List.length].
    rewrite Nat.add_succ_comm. reflexivity.
Qed.

Lemma rejected_session_witness :
  snd (timer_tasks 640 ["f1"; "f2"]%string
         (settle false (connect App_service, idle_host)))
  = {| jobs := [];
       realtimeInput :=
         realtimeInput (snd (settle false (connect App_service, idle_host)));
       unhandledRejections :=
         unhandledRejections
           (snd (settle false (connect App_service, idle_host)))
         + List.length ["f1"; "f2"]%string |}
  /\ sessionPromise
       (fst (timer_tasks 640 ["f1"; "f2"]%string
               (settle false (connect App_service, idle_host))))
     = Some Rejected.
Proof.
  apply (rejected_session_ticks_never_submit HandData
           (fst (settle false (connect App_service, idle_host)))
           (snd (settle false (connect App_service, idle_host)))
           ["f1"; "f2"]%string 640%N).
  - reflexivity.
  - reflexivity.
  - discriminate.
Defined.

(** ** startVideoStreaming and stop *)

Lemma filter_other_ids (id : N) (l : list N) :
  (forall i, In i l -> i <> id) ->
  filter (fun i => negb (i =? id)%N) l = l.
Proof.
  induction l as [| i l IH]; intros H; [reflexivity |].
  cbn [filter]. destruct (N.eqb_spec i id) as [E | _].
  - exfalso. apply (H i); [left; reflexivity | exact E].
  - cbn [negb]. f_equal. apply IH. intros j Hj. apply H. right. exact Hj.
Qed.

(** X9. [stop] clears the interval whose identifier the service holds, and
    only that one: after one [startVideoStreaming], [stop] leaves the
    timers that ran before; after two, the interval of the first call keeps
    running, since its identifier was overwritten; without a call, and on a
    second [stop], nothing changes. *)
Theorem stop_clears_the_last_interval_only :
  forall (W : Type) (this : GeminiLiveService W) (t : Timers),
    timers_ok t ->
    let once := startVideoStreaming this t in
    let twice := startVideoStreaming (fst once) (snd once) in
    running (stop (fst once) (snd once)) = running t
    /\ running (stop (fst twice) (snd twice)) = running t ++ [next_timer t]
    /\ In (next_timer t) (running (stop (fst twice) (snd twice)))
    /\ stop (fst once) (stop (fst once) (snd once))
       = stop (fst once) (snd once)
    /\ (videoInterval this = None -> stop this t = t)
    /\ timers_ok (snd once).
Proof.
  intros W this t [Hpos Hrun] once twice. subst once twice.
  unfold startVideoStreaming, setInterval, stop, clearInterval.
  cbn [fst snd videoInterval next_timer running].
  assert (Hn0 : (next_timer t =? 0)%N = false) by (apply N.eqb_neq; lia).
  assert (Hn1 : (next_timer t + 1 =? 0)%N = false) by (apply N.eqb_neq; lia).
  rewrite Hn0, Hn1. cbn [running next_timer].
  assert (Hf1 : filter (fun i => negb (i =? next_timer t)%N)
                  (running t ++ [next_timer t]) = running t).
  { rewrite filter_app. cbn [filter]. rewrite N.eqb_refl. cbn [negb].
    rewrite app_nil_r. apply filter_other_ids.
    intros i Hi. specialize (Hrun i Hi). lia. }
  assert (Hf2 : filter (fun i => negb (i =? next_timer t + 1)%N)
                  ((running t ++ [next_timer t]) ++ [next_timer t + 1]%N)
                = running t ++ [next_timer t]).
  { rewrite filter_app. cbn [filter]. rewrite N.eqb_refl. cbn [negb].
    rewrite app_nil_r. apply filter_other_ids.
    intros i Hi. apply in_app_or in Hi. destruct Hi as [Hi | [<- | []]].
    - specialize (Hrun i Hi). lia.
    - lia. }
  split; [exact Hf1 |]. split; [exact Hf2 |].
  split; [rewrite Hf2; apply in_or_app; right; left; reflexivity |].
  split.
  { cbn [running next_timer]. rewrite Hf1. f_equal.
    apply filter_other_ids. intros i Hi. specialize (Hrun i Hi). lia. }
  split; [intros ->; reflexivity |].
  split; cbn [next_timer running]; [lia |].
  intros i Hi. apply in_app_or in Hi. destruct Hi as [Hi | [<- | []]].
  - specialize (Hrun i Hi). lia.
  - lia.
Qed.

Lemma stop_clears_witness :
  running (stop (fst (startVideoStreaming App_service fresh_timers))
             (snd (startVideoStreaming App_service fresh_timers)))
  = running fresh_timers
  /\ running
       (stop (fst (startVideoStreaming
                     (fst (startVideoStreaming App_service fresh_timers))
                     (snd (startVideoStreaming App_service fresh_timers))))
             (snd (startVideoStreaming
                     (fst (startVideoStreaming App_service fresh_timers))
                     (snd (startVideoStreaming App_service fresh_timers)))))
     = running fresh_timers ++ [next_timer fresh_timers]
  /\ In (next_timer fresh_timers)
        (running
           (stop (fst (startVideoStreaming
                         (fst (startVideoStreaming App_service fresh_timers))
                         (snd (startVideoStreaming App_service fresh_timers))))
                 (snd (startVideoStreaming
                         (fst (startVideoStreaming App_service fresh_timers))
                         (snd (startVideoStreaming App_service
                                 fresh_timers))))))
  /\ stop (fst (startVideoStreaming App_service fresh_timers))
          (stop (fst (startVideoStreaming App_service fresh_timers))
                (snd (startVideoStreaming App_service fresh_timers)))
     = stop (fst (startVideoStreaming App_service fresh_timers))
            (snd (startVideoStreaming App_service fresh_timers))
  /\ (videoInterval App_service = None
      -> stop App_service fresh_timers = fresh_timers)
  /\ timers_ok (snd (startVideoStreaming App_service fresh_timers)).
Proof.
  apply (stop_clears_the_last_interval_only HandData App_service fresh_timers).
  split; [reflexivity | intros i []].
Defined.

(** ** arrayBufferToBase64 *)

Lemma list_ind3 {A : Type} (P : list A -> Prop) :
  P [] -> (forall a, P [a]) -> (forall a b, P [a; b]) ->
  (forall a b c rest, P rest -> P (a :: b :: c :: rest)) ->
  forall l, P l.
Proof.
  intros H0 H1 H2 H3 l.
  assert (H : P l /\ (forall a, P (a :: l)) /\ (forall a b, P (a :: b :: l))).
  { induction l as [| c l [IH0 [IH1 IH2]]].
    - split; [exact H0 |]. split; [exact H1 | exact H2].
    - split; [apply IH1 |]. split; [intros a; apply IH2 |].
      intros a b. apply H3. exact IH0. }
  exact (proj1 H).
Qed.

Lemma binary_of_buffer (buffer : list byte) (acc : jsstring) :
  fold_left (fun binary b => binary ++ [Byte.to_N b]) buffer acc
  = acc ++ List.map Byte.to_N buffer.
Proof.
  revert acc. induction buffer as [| b buffer IH]; intros acc.
  - cbn. rewrite app_nil_r. reflexivity.
  - cbn [fold_left List.map]. rewrite IH, <- app_assoc. reflexivity.
Qed.

Lemma sextet_round_trip (i : N) :
  (i < 64)%N ->
  sextet_of_char (sextet_char i) = Some i
  /\ sextet_char i <> 61%N
  /\ In (sextet_char i) base64_alphabet.
Proof.
  intros Hi.
  assert (Hall : forallb
                   (fun k =>
                      match sextet_of_char (sextet_char k) with
                      | Some j => (j =? k)%N
                      | None => false
                      end
                      && negb (sextet_char k =? 61)%N
                      && existsb (N.eqb (sextet_char k)) base64_alphabet)
                   (List.map N.of_nat (seq 0 64)) = true)
    by (vm_compute; reflexivity).
  rewrite forallb_forall in Hall.
  assert (Hin : In i (List.map N.of_nat (seq 0 64))).
  { apply in_map_iff. exists (N.to_nat i). split; [apply N2Nat.id |].
    apply in_seq. lia. }
  specialize (Hall i Hin).
  apply andb_true_iff in Hall. destruct Hall as [Hall He].
  apply andb_true_iff in Hall. destruct Hall as [Hs Hn].
  split; [| split].
  - destruct (sextet_of_char (sextet_char i)) as [j |]; [| discriminate Hs].
    apply N.eqb_eq in Hs. subst j. reflexivity.
  - apply negb_true_iff, N.eqb_neq in Hn. exact Hn.
  - apply existsb_exists in He. destruct He as [c [Hc Ec]].
    apply N.eqb_eq in Ec. subst c. exact Hc.
Qed.

Ltac octet_arith :=
  repeat match goal with
         | H : (_ <=? _)%N = true |- _ => apply N.leb_le in H
         end;
  zify; Z.to_euclidean_division_equations; lia.

Lemma base64_of_octets_nil (l : list N) :
  base64_of_octets l = [] -> l = [].
Proof. destruct l as [| a [| b [| c rest]]]; [reflexivity | | |]; discriminate. Qed.

Lemma base64_length (l : list N) :
  List.length (base64_of_octets l) = (4 * ((List.length l + 2) / 3))%nat.
Proof.
  induction l as [| a | a b | a b c rest IH] using list_ind3;
    try reflexivity.
  cbn [base64_of_octets List.length]. rewrite IH.
  replace (S (S (S (List.length rest))) + 2)%nat
    with ((List.length rest + 2) + 1 * 3)%nat by lia.
  rewrite Nat.div_add by discriminate. lia.
Qed.

Lemma base64_round_trip (l : list N) :
  forallb (fun c => (c <=? 255)%N) l = true ->
  octets_of_base64 (base64_of_octets l) = Some l
  /\ forall c, In c (base64_of_octets l) ->
               In c base64_alphabet \/ c = 61%N.
Proof.
  induction l as [| a | a b | a b c rest IH] using list_ind3; intros Hl.
  - split; [reflexivity | intros c []].
  - cbn [forallb] in Hl. apply andb_true_iff in Hl. destruct Hl as [Ha _].
    destruct (sextet_round_trip (a / 4)) as [E1 [_ I1]]; [octet_arith |].
    destruct (sextet_round_trip ((a mod 4) * 16)) as [E2 [_ I2]];
      [octet_arith |].
    cbn [base64_of_octets octets_of_base64]. rewrite E1, E2.
    cbn [N.eqb Pos.eqb andb]. split.
    + do 2 f_equal. octet_arith.
    + intros d [<- | [<- | [<- | [<- | []]]]]; auto.
  - cbn [forallb] in Hl. apply andb_true_iff in Hl. destruct Hl as [Ha Hl].
    apply andb_true_iff in Hl. destruct Hl as [Hb _].
    destruct (sextet_round_trip (a / 4)) as [E1 [_ I1]]; [octet_arith |].
    destruct (sextet_round_trip ((a mod 4) * 16 + b / 16)) as [E2 [_ I2]];
      [octet_arith |].
    destruct (sextet_round_trip ((b mod 16) * 4)) as [E3 [N3 I3]];
      [octet_arith |].
    cbn [base64_of_octets octets_of_base64]. rewrite E1, E2.
    apply N.eqb_neq in N3. rewrite N3. cbn [andb]. rewrite E3.
    cbn [N.eqb Pos.eqb]. split.
    + f_equal. f_equal; [octet_arith |]. f_equal. octet_arith.
    + intros d [<- | [<- | [<- | [<- | []]]]]; auto.
  - cbn [forallb] in Hl. apply andb_true_iff in Hl. destruct Hl as [Ha Hl].
    apply andb_true_iff in Hl. destruct Hl as [Hb Hl].
    apply andb_true_iff in Hl. destruct Hl as [Hc Hl].
    destruct (IH Hl) as [IHd IHa].
    destruct (sextet_round_trip (a / 4)) as [E1 [_ I1]]; [octet_arith |].
    destruct (sextet_round_trip ((a mod 4) * 16 + b / 16)) as [E2 [_ I2]];
      [octet_arith |].
    destruct (sextet_round_trip ((b mod 16) * 4 + c / 64)) as [E3 [N3 I3]];
      [octet_arith |].
    destruct (sextet_round_trip (c mod 64)) as [E4 [N4 I4]]; [octet_arith |].
    apply N.eqb_neq in N3. apply N.eqb_neq in N4.
    assert (Ea : ((a / 4) * 4 + ((a mod 4) * 16 + b / 16) / 16 = a)%N)
      by octet_arith.
    assert (Eb : ((((a mod 4) * 16 + b / 16) mod 16) * 16
                  + ((b mod 16) * 4 + c / 64) / 4 = b)%N) by octet_arith.
    assert (Ec : ((((b mod 16) * 4 + c / 64) mod 4) * 64 + c mod 64 = c)%N)
      by octet_arith.
    split.
    + cbn [base64_of_octets].
      destruct (base64_of_octets rest) as [| x tl] eqn:Erest.
      * apply base64_of_octets_nil in Erest. subst rest.
        cbn [octets_of_base64]. rewrite E1, E2, N3, E3, N4, E4.
        cbn [andb]. rewrite Ea, Eb, Ec. reflexivity.
      * cbn [octets_of_base64]. rewrite E1, E2, E3, E4.
        cbn [octets_of_base64] in IHd. rewrite IHd.
        rewrite Ea, Eb, Ec. reflexivity.
    + cbn [base64_of_octets].
      intros d [<- | [<- | [<- | [<- | Hd]]]]; auto.
Qed.

(** X10. [arrayBufferToBase64] never throws (every code unit of its binary
    string is a byte, as [btoa] requires); its result has four characters
    for every three bytes, rounded up; every character is one of the 64 of
    the alphabet or the padding sign; and decoding the result gives the
    bytes of the buffer back, so two buffers with the same encoding are
    equal. *)
Theorem arrayBufferToBase64_total_and_decodable :
  forall buffer : list byte,
    exists s : jsstring,
      arrayBufferToBase64 buffer = Some s
      /\ List.length s = (4 * ((List.length buffer + 2) / 3))%nat
      /\ (forall c, In c s -> In c base64_alphabet \/ c = 61%N)
      /\ octets_of_base64 s = Some (List.map Byte.to_N buffer)
      /\ (forall other : list byte,
             arrayBufferToBase64 other = Some s -> other = buffer).
Proof.
  assert (Hbytes : forall buffer : list byte,
             forallb (fun c => (c <=? 255)%N) (List.map Byte.to_N buffer)
             = true).
  { intros buffer. apply forallb_forall. intros c Hc.
    apply in_map_iff in Hc. destruct Hc as [b [<- _]].
    apply N.leb_le. apply Byte.to_N_bounded. }
  assert (Henc : forall buffer : list byte,
             arrayBufferToBase64 buffer
             = Some (base64_of_octets (List.map Byte.to_N buffer))).
  { intros buffer. unfold arrayBufferToBase64, btoa.
    rewrite binary_of_buffer. cbn [app]. rewrite Hbytes. reflexivity. }
  intros buffer. exists (base64_of_octets (List.map Byte.to_N buffer)).
  destruct (base64_round_trip _ (Hbytes buffer)) as [Hdec Halpha].
  split; [apply Henc |]. split.
  { rewrite base64_length, length_map. reflexivity. }
  split; [exact Halpha |]. split; [exact Hdec |].
  intros other Ho. rewrite Henc in Ho. injection Ho as Ho.
  destruct (base64_round_trip _ (Hbytes other)) as [Hdec' _].
  rewrite Ho, Hdec in Hdec'. injection Hdec' as Hmap.
  clear - Hmap. revert buffer Hmap.
  induction other as [| o other IH]; intros [| b buffer] Hmap;
    try discriminate Hmap; [reflexivity |].
  cbn [List.map] in Hmap. injection Hmap as Hb Hrest.
  f_equal; [| apply IH; exact Hrest].
  apply (f_equal Byte.of_N) in Hb. rewrite !Byte.of_to_N in Hb.
  injection Hb as Hb. symmetry. exact Hb.
Qed.

(** The text prompt that the timer sends is [btoa] of its two words. *)
Example btoa_Analyze_hand :
  btoa (utf16 "Analyze hand") = Some (utf16 "QW5hbHl6ZSBoYW5k")
  /\ btoa [256%N] = None.
Proof. split; reflexivity. Qed.

(** ** The progress recurrence *)

(** X11. While the signal is held, whatever the elapsed times, the signed
    distance of an entity's progress to the target after the frames is the
    initial one times the product of [1 - delta * speed] over the frames.
    In particular an entity that is at the target stays there: a formed
    tree stays formed while the hand is not open, however long a frame
    takes. *)
Theorem held_progress_closed_form :
  forall (e : Entity) (s : HandState) (fs : list Frame) (p0 : Q),
    attached e -> positive_weight e ->
    entity_progress e = Fin p0 ->
    Forall (held s) fs ->
    exists p,
      entity_progress (entity_run fs e) = Fin p
      /\ p - goal s == remaining (entity_rate e) fs * (p0 - goal s)
      /\ (p0 == goal s -> p == goal s).
Proof.
  intros e s fs p0 Ha Hw Hp Hheld.
  destruct (entity_run_progress fs e p0 Ha Hw Hp) as [_ E].
  exists (fold_left (progressQ (entity_rate e)) fs p0).
  split; [exact E |].
  pose proof (held_closed_form (entity_rate e) s fs p0 Hheld) as Hcf.
  split; [exact Hcf |].
  intros H0. set (R := remaining (entity_rate e) fs) in *.
  assert (Hz : R * (p0 - goal s) == 0).
  { assert (Hd : p0 - goal s == 0) by lra. rewrite Hd. ring. }
  lra.
Qed.

Lemma held_progress_closed_form_witness :
  exists p,
    entity_progress
      (entity_run [frame_of CLOSED 2; frame_of CLOSED 30] heavy_decor)
    = Fin p
    /\ p - goal CLOSED
       == remaining (entity_rate heavy_decor)
            [frame_of CLOSED 2; frame_of CLOSED 30] * (1 - goal CLOSED)
    /\ (1 == goal CLOSED -> p == goal CLOSED).
Proof.
  apply (held_progress_closed_form heavy_decor CLOSED
           [frame_of CLOSED 2; frame_of CLOSED 30] 1).
  - discriminate.
  - reflexivity.
  - reflexivity.
  - repeat constructor.
Defined.

(** X12. The interpolation depends on the frame rate: from a progress that
    is not at the target, with the signal held, one frame of elapsed time
    [dt] (moderate for the entity) brings the entity strictly nearer to the
    target than two frames of [dt / 2] each. *)
Theorem two_half_frames_lag_one_full_frame :
  forall (e : Entity) (hd : HandData) (dt t1 t2 t3 p0 : Q),
    attached e -> positive_weight e ->
    entity_progress e = Fin p0 ->
    ~ p0 == goal (state hd) ->
    0 < dt ->
    dt * entity_rate e (state hd) <= 1 ->
    exists p1 p2,
      entity_progress
        (entity_run [ {| handData := hd; elapsedTime := t1; delta := dt |} ] e)
      = Fin p1
      /\ entity_progress
           (entity_run
              [ {| handData := hd; elapsedTime := t2; delta := dt / 2 |};
                {| handData := hd; elapsedTime := t3; delta := dt / 2 |} ] e)
         = Fin p2
      /\ Qabs (p1 - goal (state hd)) < Qabs (p2 - goal (state hd)).
Proof.
  intros e hd dt t1 t2 t3 p0 Ha Hw Hp Hne Hdt Hmod.
  set (s := state hd) in *.
  set (full := [ {| handData := hd; elapsedTime := t1; delta := dt |} ]).
  set (halves := [ {| handData := hd; elapsedTime := t2; delta := dt / 2 |};
                   {| handData := hd; elapsedTime := t3; delta := dt / 2 |} ]).
  destruct (entity_run_progress full e p0 Ha Hw Hp) as [_ E1].
  destruct (entity_run_progress halves e p0 Ha Hw Hp) as [_ E2].
  exists (fold_left (progressQ (entity_rate e)) full p0),
         (fold_left (progressQ (entity_rate e)) halves p0).
  split; [exact E1 |]. split; [exact E2 |].
  assert (H1 : Forall (held s) full) by (repeat constructor).
  assert (H2 : Forall (held s) halves) by (repeat constructor).
  rewrite (held_closed_form (entity_rate e) s full p0 H1).
  rewrite (held_closed_form (entity_rate e) s halves p0 H2).
  pose proof (entity_rate_pos e s Hw) as Hr.
  unfold full, halves. cbn [remaining]. unfold coefficient.
  cbn [delta handData]. fold s.
  set (r := entity_rate e s) in *. clearbody r.
  assert (Ht : 0 < dt * r) by (apply Qmult_lt_0_compat; assumption).
  assert (Hu : exists u, dt / 2 * r == u /\ 2 * u == dt * r).
  { exists (dt / 2 * r). split; [reflexivity | field]. }
  destruct Hu as [u [Hh Hu]].
  set (t := dt * r) in *. clearbody t.
  assert (Hsq : 0 < u * u) by (apply Qmult_lt_0_compat; lra).
  rewrite !Hh.
  rewrite !Qabs_scale.
  - apply Qmult_lt_compat_r.
    + apply Qabs_pos_of_nonzero. intros E. apply Hne. lra.
    + assert (Hexp : (1 - u) * ((1 - u) * 1) - (1 - t) * 1
                     == u * u) by (rewrite <- Hu; ring).
      lra.
  - assert (0 <= (1 - u) * 1) by lra.
    apply Qmult_le_0_compat; lra.
  - lra.
Qed.

Lemma two_half_frames_witness :
  exists p1 p2,
    entity_progress
      (entity_run
         [ {| handData := signal OPEN; elapsedTime := 0; delta := 1 # 10 |} ]
         new_foliage)
    = Fin p1
    /\ entity_progress
         (entity_run
            [ {| handData := signal OPEN; elapsedTime := 0;
                 delta := (1 # 10) / 2 |};
              {| handData := signal OPEN; elapsedTime := 0;
                 delta := (1 # 10) / 2 |} ] new_foliage)
       = Fin p2
    /\ Qabs (p1 - goal (state (signal OPEN)))
       < Qabs (p2 - goal (state (signal OPEN))).
Proof.
  apply (two_half_frames_lag_one_full_frame new_foliage (signal OPEN)
           (1 # 10) 0 0 0 1).
  - discriminate.
  - exact I.
  - reflexivity.
  - closed_Q.
  - reflexivity.
  - closed_Q.
Defined.

(** ** The instances of a decor group *)

Lemma forEach_instances (e t ease : number) (l : list ID.Item) :
  forall (k : nat) (d : ID.Object3D) (ms : list ID.Object3D),
    let out := fold_left (ID.forEach_body e t ease)
                 (combine (seq k (List.length l)) l) (d, ms) in
    List.length (snd out) = List.length ms
    /\ (forall i, (i < k \/ k + List.length l <= i)%nat ->
                  nth_error (snd out) i = nth_error ms i)
    /\ (forall j item,
           nth_error l j = Some item -> (k + j < List.length ms)%nat ->
           exists o,
             nth_error (snd out) (k + j) = Some o
             /\ ID.obj_position o
                = lerpVectors (ID.chaos item) (ID.target item) ease
             /\ ID.obj_scale o
                = setScalar (ID.scale item
                             * (Fin (1 # 2) + Fin (1 # 2) * t))%num
             /\ (lt t (Fin (9 # 10)) = false ->
                 ID.obj_rotation o = ID.rotation item)
             /\ (lt t (Fin (9 # 10)) = true ->
                 euler_x (ID.obj_rotation o)
                 = (euler_x (ID.chaosRotation item) + e * (Fin 1 - t))%num
                 /\ euler_y (ID.obj_rotation o)
                    = (euler_y (ID.chaosRotation item) + e * (Fin 1 - t))%num)
             /\ (S j = List.length l -> fst out = o))
    /\ (l = [] -> fst out = d).
Proof.
  induction l as [| it l IH]; intros k d ms;
    cbn [List.length seq combine fold_left].
  - cbn [fst snd]. split; [reflexivity |]. split; [reflexivity |].
    split; [| reflexivity]. intros [| j] item H; discriminate H.
  - cbn [ID.forEach_body].
    match goal with
    | |- context [fold_left _ _ (?d1, ID.setMatrixAt k _ ms)] =>
        remember d1 as d' eqn:Ed';
        specialize (IH (S k) d' (ID.setMatrixAt k d' ms))
    end.
    cbv zeta in IH. destruct IH as [Hlen [Hlow [Hitems Hnil]]].
    rewrite setMatrixAt_length in Hlen, Hitems. cbv zeta.
    split; [exact Hlen |]. split; [| split; [| discriminate]].
    + intros i Hi. rewrite Hlow by lia. apply setMatrixAt_other. lia.
    + intros [| j] item Hnth Hk.
      * cbn in Hnth. injection Hnth as <-. rewrite Nat.add_0_r in *.
        rewrite Hlow by lia. rewrite setMatrixAt_same by exact Hk.
        exists d'. split; [reflexivity |].
        split; [rewrite Ed'; reflexivity |].
        split; [rewrite Ed'; reflexivity |].
        split; [intros Hlt; rewrite Ed'; cbn [ID.obj_rotation];
                rewrite Hlt; reflexivity |].
        split; [intros Hlt; rewrite Ed'; cbn [ID.obj_rotation];
                rewrite Hlt; split; reflexivity |].
        intros Hl. injection Hl as Hl. symmetry in Hl.
        apply length_zero_iff_nil in Hl. apply Hnil. exact Hl.
      * cbn in Hnth.
        destruct (Hitems j item Hnth) as [o [Ho [H1 [H2 [H3 [H4 H5]]]]]];
          [lia |].
        exists o. rewrite <- Nat.add_succ_comm.
        split; [exact Ho |]. split; [exact H1 |]. split; [exact H2 |].
        split; [exact H3 |]. split; [exact H4 |].
        intros Hl. apply H5. lia.
Qed.

(** What a frame of a group with its mesh attached does to the instances,
    in terms of the progress [t] after the frame's update. *)
Lemma decor_frame_instances (w : Q) (data : list ID.Item) (r : ID.Refs)
    (f : Frame) (ms : list ID.Object3D) :
  ID.meshRef r = Some ms ->
  let r' := ID.frame w data r f in
  let t := ID.currentProgress r' in
  exists ms',
    ID.meshRef r' = Some ms'
    /\ List.length ms' = List.length ms
    /\ (forall i, (List.length data <= i)%nat ->
                  nth_error ms' i = nth_error ms i)
    /\ (forall i item,
           nth_error data i = Some item -> (i < List.length ms)%nat ->
           exists o,
             nth_error ms' i = Some o
             /\ ID.obj_position o
                = lerpVectors (ID.chaos item) (ID.target item)
                    (Fin 1 - pow (Fin 1 - t) 3)%num
             /\ ID.obj_scale o
                = setScalar (ID.scale item
                             * (Fin (1 # 2) + Fin (1 # 2) * t))%num
             /\ (lt t (Fin (9 # 10)) = false ->
                 ID.obj_rotation o = ID.rotation item)
             /\ (lt t (Fin (9 # 10)) = true ->
                 euler_x (ID.obj_rotation o)
                 = (euler_x (ID.chaosRotation item)
                    + Fin (elapsedTime f) * (Fin 1 - t))%num
                 /\ euler_y (ID.obj_rotation o)
                    = (euler_y (ID.chaosRotation item)
                       + Fin (elapsedTime f) * (Fin 1 - t))%num)
             /\ (S i = List.length data -> ID.dummy r' = o))
    /\ (data = [] -> ID.dummy r' = ID.dummy r).
Proof.
  intros Hm r' t. subst t r'. unfold ID.frame, ID.useFrame. rewrite Hm.
  match goal with
  | |- context [fold_left (ID.forEach_body ?e0 ?t0 ?ease0) _ (?d0, ms)] =>
      pose proof (forEach_instances e0 t0 ease0 data 0%nat d0 ms) as H;
      unfold ID.indexed;
      destruct (fold_left (ID.forEach_body e0 t0 ease0)
                  (combine (seq 0 (List.length data)) data) (d0, ms))
        as [d' ms'] eqn:E
  end.
  cbv zeta in H. cbn [fst snd] in H.
  destruct H as [Hlen [Hlow [Hitems Hnil]]].
  cbn [ID.meshRef ID.currentProgress ID.dummy].
  exists ms'. split; [reflexivity |]. split; [exact Hlen |].
  split; [intros i Hi; apply Hlow; right; cbn [Nat.add]; exact Hi |].
  split; [| exact Hnil].
  intros i item Hnth Hi.
  destruct (Hitems i item Hnth Hi) as [o Ho]. exists o. exact Ho.
Qed.

(** X13. A frame of a decor group keeps the number of instances, writes the
    slots of the items and no other slot, and leaves in the shared scratch
    object what it wrote for the last item; with no item it changes
    neither the instances nor the scratch object. *)
Theorem decor_frame_writes_the_item_slots_only :
  forall (w : Q) (data : list ID.Item) (r : ID.Refs) (f : Frame)
         (ms : list ID.Object3D),
    ID.meshRef r = Some ms ->
    exists ms',
      ID.meshRef (ID.frame w data r f) = Some ms'
      /\ List.length ms' = List.length ms
      /\ (forall i, (List.length data <= i)%nat ->
                    nth_error ms' i = nth_error ms i)
      /\ (forall i, (i < List.length data)%nat -> (i < List.length ms)%nat ->
                    exists item o,
                      nth_error data i = Some item
                      /\ nth_error ms' i = Some o
                      /\ ID.obj_position o
                         = lerpVectors (ID.chaos item) (ID.target item)
                             (Fin 1
                              - pow (Fin 1
                                     - ID.currentProgress (ID.frame w data r f))
                                    3)%num)
      /\ (forall i, S i = List.length data -> (i < List.length ms)%nat ->
                    nth_error ms' i = Some (ID.dummy (ID.frame w data r f)))
      /\ (data = [] ->
          ms' = ms /\ ID.dummy (ID.frame w data r f) = ID.dummy r).
Proof.
  intros w data r f ms Hm.
  destruct (decor_frame_instances w data r f ms Hm)
    as [ms' [Hm' [Hlen [Hhigh [Hitems Hnil]]]]].
  exists ms'. split; [exact Hm' |]. split; [exact Hlen |].
  split; [exact Hhigh |]. split; [| split].
  - intros i Hi Hims.
    destruct (nth_error data i) as [item |] eqn:E.
    + destruct (Hitems i item E Hims) as [o [Ho [Hpos _]]].
      exists item, o. split; [reflexivity |]. split; assumption.
    + apply nth_error_None in E. lia.
  - intros i Hi Hims.
    destruct (nth_error data i) as [item |] eqn:E.
    + destruct (Hitems i item E Hims) as [o [Ho [_ [_ [_ [_ Hd]]]]]].
      rewrite (Hd Hi). exact Ho.
    + apply nth_error_None in E. lia.
  - intros ->. split; [| apply Hnil; reflexivity].
    apply nth_error_ext. intros i. apply Hhigh. cbn. lia.
Qed.

Lemma decor_frame_slots_witness :
  exists ms',
    ID.meshRef (ID.frame Tree.weight_gifts [sample_item] (ID.initial 3)
                  (frame_of OPEN (1 # 10)))
    = Some ms'
    /\ List.length ms' = List.length (repeat ID.new_Object3D 3)
    /\ (forall i, (List.length [sample_item] <= i)%nat ->
                  nth_error ms' i = nth_error (repeat ID.new_Object3D 3) i)
    /\ (forall i, (i < List.length [sample_item])%nat ->
                  (i < List.length (repeat ID.new_Object3D 3))%nat ->
                  exists item o,
                    nth_error [sample_item] i = Some item
                    /\ nth_error ms' i = Some o
                    /\ ID.obj_position o
                       = lerpVectors (ID.chaos item) (ID.target item)
                           (Fin 1
                            - pow (Fin 1
                                   - ID.currentProgress
                                       (ID.frame Tree.weight_gifts
                                          [sample_item] (ID.initial 3)
                                          (frame_of OPEN (1 # 10))))
                                  3)%num)
    /\ (forall i, S i = List.length [sample_item] ->
                  (i < List.length (repeat ID.new_Object3D 3))%nat ->
                  nth_error ms' i
                  = Some (ID.dummy (ID.frame Tree.weight_gifts [sample_item]
                                      (ID.initial 3)
                                      (frame_of OPEN (1 # 10)))))
    /\ ([sample_item] = [] ->
        ms' = repeat ID.new_Object3D 3
        /\ ID.dummy (ID.frame Tree.weight_gifts [sample_item] (ID.initial 3)
                       (frame_of OPEN (1 # 10)))
           = ID.dummy (ID.initial 3)).
Proof.
  apply (decor_frame_writes_the_item_slots_only Tree.weight_gifts
           [sample_item] (ID.initial 3) (frame_of OPEN (1 # 10))
           (repeat ID.new_Object3D 3)).
  reflexivity.
Defined.

Lemma cube_expand (q : Q) : q ^ 3 == q * q * q.
Proof. cbn. ring. Qed.

Lemma easeQ_at_one (q : Q) : q == 1 -> easeQ q == 1.
Proof.
  intros Hq. unfold easeQ. rewrite cube_expand.
  assert (H : 1 - q == 0) by lra. rewrite H. ring.
Qed.

Lemma easeQ_at_zero (q : Q) : q == 0 -> easeQ q == 0.
Proof.
  intros Hq. unfold easeQ. rewrite cube_expand.
  assert (H : 1 - q == 1) by lra. rewrite H. ring.
Qed.

Lemma easeQ_unit (q : Q) : 0 <= q <= 1 -> 0 <= easeQ q <= 1.
Proof.
  intros [H0 H1]. unfold easeQ. rewrite cube_expand.
  set (u := 1 - q). assert (Hu : 0 <= u <= 1) by (unfold u; lra).
  clearbody u. destruct Hu as [Hu0 Hu1].
  assert (Huu : 0 <= u * u) by (apply Qmult_le_0_compat; assumption).
  assert (Huu1 : u * u <= 1) by nra.
  assert (Huuu : 0 <= u * u * u) by (apply Qmult_le_0_compat; assumption).
  assert (Huuu1 : u * u * u <= 1) by nra.
  lra.
Qed.

Lemma blendQ_ends (a a' q : Q) :
  (q == 1 -> blendQ a a' q == a') /\ (q == 0 -> blendQ a a' q == a).
Proof.
  unfold blendQ. split; intros Hq.
  - rewrite (easeQ_at_one q Hq). ring.
  - rewrite (easeQ_at_zero q Hq). ring.
Qed.

Lemma blendQ_between (a a' q : Q) :
  0 <= q <= 1 -> Qmin a a' <= blendQ a a' q <= Qmax a a'.
Proof.
  intros Hq. pose proof (easeQ_unit q Hq) as [He0 He1].
  unfold blendQ. set (e := easeQ q) in *. clearbody e.
  destruct (Qlt_le_dec a a') as [Hlt | Hle].
  - rewrite (Q.min_l a a') by lra. rewrite (Q.max_r a a') by lra. nra.
  - rewrite (Q.min_r a a') by lra. rewrite (Q.max_l a a') by lra. nra.
Qed.

(** X14. The two end poses of a decor group are fixed: with the progress at
    1 and the hand not open, a frame leaves the progress at 1 and writes
    for every item its target position, its own rotation and its full
    scale; with the progress at 0 and the hand open, it leaves the progress
    at 0 and writes the chaos position, half the scale, and the chaos
    rotation advanced by the clock's elapsed time about x and y.  This
    holds whatever the elapsed time of the frame. *)
Theorem decor_end_poses_are_fixed :
  forall (w : Q) (data : list ID.Item) (r : ID.Refs) (f : Frame)
         (ms : list ID.Object3D) (p : Q) (i : nat) (item : ID.Item)
         (a b c a' b' c' sc rx ry : Q) (rz : number),
    ~ w == 0 ->
    ID.meshRef r = Some ms ->
    ID.currentProgress r = Fin p ->
    nth_error data i = Some item ->
    (i < List.length ms)%nat ->
    ID.chaos item = vecQ a b c ->
    ID.target item = vecQ a' b' c' ->
    ID.scale item = Fin sc ->
    ID.chaosRotation item = mkEuler (Fin rx) (Fin ry) rz ->
    p == goal (state (handData f)) ->
    exists ms' o,
      ID.meshRef (ID.frame w data r f) = Some ms'
      /\ nth_error ms' i = Some o
      /\ ID.currentProgress (ID.frame w data r f)
         =~ Fin (goal (state (handData f)))
      /\ (state (handData f) <> OPEN ->
          vec_same (ID.obj_position o) (vecQ a' b' c')
          /\ ID.obj_rotation o = ID.rotation item
          /\ vec_same (ID.obj_scale o) (vecQ sc sc sc))
      /\ (state (handData f) = OPEN ->
          vec_same (ID.obj_position o) (vecQ a b c)
          /\ euler_x (ID.obj_rotation o) =~ Fin (rx + elapsedTime f)
          /\ euler_y (ID.obj_rotation o) =~ Fin (ry + elapsedTime f)
          /\ vec_same (ID.obj_scale o)
               (vecQ (sc * (1 # 2)) (sc * (1 # 2)) (sc * (1 # 2)))).
Proof.
  intros w data r f ms p i item a b c a' b' c' sc rx ry rz
         Hw Hm Hp Hnth Hi Hc Ht Hs Hr Hgoal.
  assert (Hmesh : ID.meshRef r <> None) by (rewrite Hm; discriminate).
  destruct (decor_frame_progress w data r f p Hw Hmesh Hp) as [_ Eprog].
  destruct (decor_frame_instances w data r f ms Hm)
    as [ms' [Hm' [_ [_ [Hitems _]]]]].
  destruct (Hitems i item Hnth Hi) as [o [Ho [Hpos [Hsc [Hsnap [Hspin _]]]]]].
  rewrite Eprog in Hpos, Hsc, Hsnap, Hspin.
  set (q := progressQ (decor_rate w) p f) in *.
  assert (Hq : q == goal (state (handData f))).
  { unfold q, progressQ.
    pose proof (lerpQ_error p (goal (state (handData f)))
                  (coefficient (decor_rate w) f)) as E.
    assert (Hd : p - goal (state (handData f)) == 0) by lra.
    rewrite Hd in E. lra. }
  exists ms', o. split; [exact Hm' |]. split; [exact Ho |].
  split; [rewrite Eprog; exact Hq |].
  rewrite Hc, Ht in Hpos. rewrite Hs in Hsc. rewrite Hr in Hspin.
  pose proof (lerpVectors_blend a b c a' b' c' q) as Hblend.
  rewrite <- Hpos in Hblend. destruct Hblend as [Bx [By Bz]].
  destruct (goal_cases (state (handData f))) as [[Hst Hg] | [Hst Hg]];
    rewrite Hg in Hq; (split; [intros Hn | intros Hn]; try contradiction).
  - (* open hand, progress 0 *)
    assert (Hlt : lt (Fin q) (Fin (9 # 10)) = true).
    { cbn [lt]. apply negb_true_iff.
      destruct (Qle_bool (9 # 10) q) eqn:E; [| reflexivity].
      apply Qle_bool_iff in E. lra. }
    destruct (Hspin Hlt) as [Hrx Hry].
    split; [| split; [| split]].
    + unfold vec_same in *. cbn [vec_x vec_y vec_z vecQ same] in *.
      destruct (ID.obj_position o) as [[| | |] [| | |] [| | |]];
        cbn [vec_x vec_y vec_z same] in *; try contradiction.
      pose proof (proj2 (blendQ_ends a a' q) Hq).
      pose proof (proj2 (blendQ_ends b b' q) Hq).
      pose proof (proj2 (blendQ_ends c c' q) Hq).
      split; [lra |]. split; lra.
    + rewrite Hrx. cbn [euler_x add sub mul neg same]. rewrite Hq. ring.
    + rewrite Hry. cbn [euler_y add sub mul neg same]. rewrite Hq. ring.
    + rewrite Hsc. unfold vec_same, setScalar, vecQ.
      cbn [vec_x vec_y vec_z add mul same]. rewrite Hq.
      split; [ring |]. split; ring.
  - (* hand not open, progress 1 *)
    assert (Hge : lt (Fin q) (Fin (9 # 10)) = false).
    { cbn [lt]. apply negb_false_iff. apply Qle_bool_iff. lra. }
    split; [| split].
    + unfold vec_same in *. cbn [vec_x vec_y vec_z vecQ same] in *.
      destruct (ID.obj_position o) as [[| | |] [| | |] [| | |]];
        cbn [vec_x vec_y vec_z same] in *; try contradiction.
      pose proof (proj1 (blendQ_ends a a' q) Hq).
      pose proof (proj1 (blendQ_ends b b' q) Hq).
      pose proof (proj1 (blendQ_ends c c' q) Hq).
      split; [lra |]. split; lra.
    + apply Hsnap. exact Hge.
    + rewrite Hsc. unfold vec_same, setScalar, vecQ.
      cbn [vec_x vec_y vec_z add mul same]. rewrite Hq.
      split; [ring |]. split; ring.
Qed.

Lemma decor_end_poses_witness :
  exists ms' o,
    ID.meshRef (ID.frame Tree.weight_gifts [sample_item] (ID.initial 1)
                  (frame_of CLOSED 5))
    = Some ms'
    /\ nth_error ms' 0 = Some o
    /\ ID.currentProgress
         (ID.frame Tree.weight_gifts [sample_item] (ID.initial 1)
            (frame_of CLOSED 5))
       =~ Fin (goal (state (handData (frame_of CLOSED 5))))
    /\ (state (handData (frame_of CLOSED 5)) <> OPEN ->
        vec_same (ID.obj_position o) (vecQ 1 2 3)
        /\ ID.obj_rotation o = ID.rotation sample_item
        /\ vec_same (ID.obj_scale o) (vecQ (1 # 4) (1 # 4) (1 # 4)))
    /\ (state (handData (frame_of CLOSED 5)) = OPEN ->
        vec_same (ID.obj_position o) (vecQ (-8) 4 6)
        /\ euler_x (ID.obj_rotation o)
           =~ Fin (3 + elapsedTime (frame_of CLOSED 5))
        /\ euler_y (ID.obj_rotation o)
           =~ Fin (1 + elapsedTime (frame_of CLOSED 5))
        /\ vec_same (ID.obj_scale o)
             (vecQ ((1 # 4) * (1 # 2)) ((1 # 4) * (1 # 2))
                   ((1 # 4) * (1 # 2)))).
Proof.
  apply (decor_end_poses_are_fixed Tree.weight_gifts [sample_item]
           (ID.initial 1) (frame_of CLOSED 5) [ID.new_Object3D] 1 0%nat
           sample_item (-8) 4 6 1 2 3 (1 # 4) 3 1 (Fin 0)).
  - closed_Q.
  - reflexivity.
  - reflexivity.
  - reflexivity.
  - cbn. lia.
  - reflexivity.
  - reflexivity.
  - reflexivity.
  - reflexivity.
  - reflexivity.
Defined.

(** X15. While the progress after a frame is in [[0,1]], every item of a
    decor group is written on the segment between its chaos and its target
    position (coordinate by coordinate), with a scale between half of its
    scale and its scale; and for a progress in [[0,1]] the vertex shader
    blends every foliage particle on the segment between its two positions
    as well. *)
Theorem poses_stay_between_chaos_and_target :
  (forall (w : Q) (data : list ID.Item) (r : ID.Refs) (f : Frame)
          (ms : list ID.Object3D) (t : Q) (i : nat) (item : ID.Item)
          (a b c a' b' c' sc : Q),
      ID.meshRef r = Some ms ->
      ID.currentProgress (ID.frame w data r f) = Fin t ->
      0 <= t <= 1 ->
      nth_error data i = Some item ->
      (i < List.length ms)%nat ->
      ID.chaos item = vecQ a b c ->
      ID.target item = vecQ a' b' c' ->
      ID.scale item = Fin sc ->
      0 <= sc ->
      exists ms' o,
        ID.meshRef (ID.frame w data r f) = Some ms'
        /\ nth_error ms' i = Some o
        /\ in_range (Qmin a a') (Qmax a a') (vec_x (ID.obj_position o))
        /\ in_range (Qmin b b') (Qmax b b') (vec_y (ID.obj_position o))
        /\ in_range (Qmin c c') (Qmax c c') (vec_z (ID.obj_position o))
        /\ in_range (sc * (1 # 2)) sc (vec_x (ID.obj_scale o))
        /\ vec_y (ID.obj_scale o) = vec_x (ID.obj_scale o)
        /\ vec_z (ID.obj_scale o) = vec_x (ID.obj_scale o))
  /\ (forall (t a b c a' b' c' : Q),
         0 <= t <= 1 ->
         exists v,
           Tree.foliageVertexShader_blend (Fin t) (vecQ a' b' c') (vecQ a b c)
           = Some v
           /\ in_range (Qmin a a') (Qmax a a') (vec_x v)
           /\ in_range (Qmin b b') (Qmax b b') (vec_y v)
           /\ in_range (Qmin c c') (Qmax c c') (vec_z v)).
Proof.
  assert (Hrange : forall lo hi q n, n =~ Fin q -> lo <= q <= hi ->
                                     in_range lo hi n).
  { intros lo hi q [q' | | |] Hn Hq; cbn [same in_range] in *;
      try contradiction. lra. }
  split.
  - intros w data r f ms t i item a b c a' b' c' sc
           Hm Hprog Ht Hnth Hi Hc Htg Hs Hsc.
    destruct (decor_frame_instances w data r f ms Hm)
      as [ms' [Hm' [_ [_ [Hitems _]]]]].
    destruct (Hitems i item Hnth Hi) as [o [Ho [Hpos [Hscale _]]]].
    rewrite Hprog in Hpos, Hscale. rewrite Hc, Htg in Hpos.
    rewrite Hs in Hscale.
    pose proof (lerpVectors_blend a b c a' b' c' t) as Hblend.
    rewrite <- Hpos in Hblend. destruct Hblend as [Bx [By Bz]].
    exists ms', o. split; [exact Hm' |]. split; [exact Ho |].
    split; [apply (Hrange _ _ _ _ Bx); apply blendQ_between; exact Ht |].
    split; [apply (Hrange _ _ _ _ By); apply blendQ_between; exact Ht |].
    split; [apply (Hrange _ _ _ _ Bz); apply blendQ_between; exact Ht |].
    rewrite Hscale. cbn [setScalar vec_x vec_y vec_z add mul in_range].
    split; [| split; reflexivity]. nra.
  - intros t a b c a' b' c' Ht.
    rewrite shader_blend_defined by lra. eexists. split; [reflexivity |].
    destruct (mix_blend a b c a' b' c' t) as [Bx [By Bz]].
    split; [apply (Hrange _ _ _ _ Bx); apply blendQ_between; exact Ht |].
    split; [apply (Hrange _ _ _ _ By); apply blendQ_between; exact Ht |].
    apply (Hrange _ _ _ _ Bz); apply blendQ_between; exact Ht.
Qed.

Lemma poses_between_witness :
  (exists ms' o,
      ID.meshRef (ID.frame Tree.weight_gifts [sample_item] (ID.initial 1)
                    (frame_of OPEN (1 # 10)))
      = Some ms'
      /\ nth_error ms' 0 = Some o
      /\ in_range (Qmin (-8) 1) (Qmax (-8) 1) (vec_x (ID.obj_position o))
      /\ in_range (Qmin 4 2) (Qmax 4 2) (vec_y (ID.obj_position o))
      /\ in_range (Qmin 6 3) (Qmax 6 3) (vec_z (ID.obj_position o))
      /\ in_range ((1 # 4) * (1 # 2)) (1 # 4) (vec_x (ID.obj_scale o))
      /\ vec_y (ID.obj_scale o) = vec_x (ID.obj_scale o)
      /\ vec_z (ID.obj_scale o) = vec_x (ID.obj_scale o))
  /\ (exists v,
         Tree.foliageVertexShader_blend (Fin (1 # 2)) (vecQ 1 2 3)
           (vecQ (-8) 4 6) = Some v
         /\ in_range (Qmin (-8) 1) (Qmax (-8) 1) (vec_x v)
         /\ in_range (Qmin 4 2) (Qmax 4 2) (vec_y v)
         /\ in_range (Qmin 6 3) (Qmax 6 3) (vec_z v)).
Proof.
  destruct poses_stay_between_chaos_and_target as [Hdecor Hshader].
  split.
  - apply (Hdecor Tree.weight_gifts [sample_item] (ID.initial 1)
             (frame_of OPEN (1 # 10)) [ID.new_Object3D] (27000 # 32400)
             0%nat sample_item (-8) 4 6 1 2 3 (1 # 4)).
    + reflexivity.
    + reflexivity.
    + closed_Q.
    + reflexivity.
    + cbn. lia.
    + reflexivity.
    + reflexivity.
    + reflexivity.
    + closed_Q.
  - apply (Hshader (1 # 2) (-8) 4 6 1 2 3). closed_Q.
Defined.

(** A progress past 1 puts an item beyond its target: at 13/8 the gifts'
    sample item, whose chaos and target [x] are -8 and 1, is at an [x]
    above 1. *)
Example overshoot_leaves_the_segment :
  vec_x (lerpVectors (vecQ (-8) 4 6) (vecQ 1 2 3)
           (Fin 1 - pow (Fin 1 - Fin (13 # 8)) 3)%num)
  =~ Fin (1637 # 512).
Proof. closed_Q. Qed.
